(** * Cairo VM (TypeScript): field elements, write-once memory, instruction
      decoding and operand resolution.

    A shallow embedding of
      - [src/primitives/felt.ts]      (module [Felt]),
      - [src/memory/memory.ts]        (module [Memory]),
      - [src/vm/instruction.ts]       (module [Instruction]),
      - the virtual machine           (section [VirtualMachine]),
    followed by the properties established about them.  Classes the sources
    use but do not contain are kept as interfaces ([Words], [MemoryOps]) and
    instantiated from the specification ([Word], [SegmentedMemory]). *)

From Stdlib Require Import ZArith Lia Bool.
From stdpp Require Import base option gmap.

Local Open Scope Z_scope.

(** ** Results and exceptions

    The sources report failures in two ways: a function either returns an
    error value to its caller ([new Err(e)], [{ value: undefined, error }])
    or throws a JavaScript exception.  Both are kept apart here. *)

(** The error constants the sources name.  The last four belong to
    [primitives/relocatable] and [primitives/uint], which are not part of the
    sources at hand; they are the error kinds the specification lists for
    word arithmetic. *)
Inductive Error : Type :=
  (* memory/memory.ts *)
  | UnknownAddressError
  | WriteOnceError
  | SegmentError
  (* primitives/uint *)
  | NumberConversionError
  (* result/instruction *)
  | HighBitSetError
  | InvalidApUpdate
  | InvalidOp1Src
  | InvalidOpcode
  | InvalidPcUpdate
  | InvalidResultLogic
  (* result/virtualMachine, result/memory *)
  | DiffAssertValuesError
  | EndOfInstructionsError
  | InvalidDstOperand
  | InvalidOperand0
  | UnconstrainedResError
  | InstructionError
  (* word arithmetic *)
  | OffsetUnderflow
  | SegmentMismatch
  | TypeMismatch
  | DivisionByZero.

(** What a [throw] carries. *)
Inductive Exception : Type :=
  | FeltError                 (* thrown by the Felt constructor *)
  | TypeError                 (* a method called on [undefined] *)
  | BaseError (e : Error)     (* [throw new BaseError(_, e)], [throw error] *)
  | NotImplemented.           (* [throw new Error('TODO: Not Implemented')] *)

Inductive Result (A : Type) : Type :=
  | Ok (value : A)
  | Err (error : Error)
  | Throw (exn : Exception).

Arguments Ok {A} value.
Arguments Err {A} error.
Arguments Throw {A} exn.

Definition isOk {A} (r : Result A) : bool :=
  match r with Ok _ => true | _ => false end.

(** Early-returning bind: an error value or an exception of the first
    computation is what the whole computation yields. *)
Definition bind {A B} (r : Result A) (k : A -> Result B) : Result B :=
  match r with
  | Ok a => k a
  | Err e => Err e
  | Throw x => Throw x
  end.

(** A table lookup that fails with [err]. *)
Definition orErr {A} (err : Error) (o : option A) : Result A :=
  match o with Some x => Ok x | None => Err err end.

(** ** Field elements: [primitives/felt.ts] *)

Module UnsignedInteger.

(** Modelled from the spec: [UnsignedInteger.toUint64] of [primitives/uint]
    is missing; the conversion succeeds iff the value fits in 64 bits. *)
Definition toUint64 (num : Z) : Result Z :=
  if (0 <=? num) && (num <? 2 ^ 64) then Ok num else Err NumberConversionError.

End UnsignedInteger.

Module Felt.

Definition PRIME : Z :=
  0x800000000000011000000000000000000000000000000000000000000000001.

Record t : Type := mk { inner : Z }.

(** [constructor(_inner: bigint)]: throws unless [0 <= _inner <= PRIME];
    the argument is stored as it is. *)
Definition new (_inner : Z) : Result t :=
  if (_inner <? 0) || (_inner >? PRIME) then Throw FeltError
  else Ok (mk _inner).

(** [add]: JavaScript's [%] on bigints truncates, hence [Z.rem]. *)
Definition add (self other : t) : Result t :=
  new (Z.rem (inner self + inner other) PRIME).

Definition sub (self other : t) : Result t :=
  let result := inner self - inner other in
  let result := if result <? 0 then result + PRIME else result in
  new result.

Definition eq (self other : t) : bool := inner self =? inner other.

Definition toUint64 (self : t) : Result Z :=
  UnsignedInteger.toUint64 (inner self).

End Felt.

(** ** Write-once memory: [memory/memory.ts] *)

Module Memory.

(** Modelled from the spec: the class [Relocatable] of
    [primitives/relocatable] is missing; the specification describes it as
    a pair (segment index, offset) of non-negative integers.  A
    [Relocatable] is a JavaScript object, and [Map] compares object keys by
    identity, so each instance also carries the identity [ident] that
    [new Relocatable(..)] gave it. *)
Record Relocatable : Type := mkRelocatable {
  ident : positive;
  segmentIndex : Z;
  offset : Z
}.

Section WithValues.

(** The cells hold [MaybeRelocatable] values; the memory never inspects
    them. *)
Context {MaybeRelocatable : Type}.

(** [data: Map<Relocatable, MaybeRelocatable>] is keyed by the identity of
    the key object. *)
Record t : Type := mk {
  data : gmap positive MaybeRelocatable;
  numSegments : Z
}.

(** [constructor()] *)
Definition new : t := {| data := ∅; numSegments := 0 |}.

Definition insert (self : t) (address : Relocatable)
    (value : MaybeRelocatable) : Result bool * t :=
  if segmentIndex address >=? numSegments self then (Err SegmentError, self)
  else match data self !! ident address with
       | Some _ => (Err WriteOnceError, self)
       | None =>
           (Ok true,
            {| data := <[ident address := value]> (data self);
               numSegments := numSegments self |})
       end.

Definition get (self : t) (address : Relocatable) : Result MaybeRelocatable :=
  match data self !! ident address with
  | None => Err UnknownAddressError
  | Some value => Ok value
  end.

(** Modelled from the spec: [UnsignedInteger.toUint32] of
    [primitives/uint] is missing; adding a segment increments the number
    of segments. *)
Definition incrementNumSegments (self : t) : t :=
  {| data := data self; numSegments := numSegments self + 1 |}.

Definition getNumSegments (self : t) : Z := numSegments self.

(** The operations that change a memory, and a sequence of them applied
    in order (results of inserts dropped). *)
Inductive op : Type :=
  | Insert (address : Relocatable) (value : MaybeRelocatable)
  | IncrementNumSegments.

Definition apply (self : t) (o : op) : t :=
  match o with
  | Insert address value => snd (insert self address value)
  | IncrementNumSegments => incrementNumSegments self
  end.

Definition run (ops : list op) (self : t) : t := foldl apply self ops.

(** The cell at [A] holds [W] and the segment of [A] exists. *)
Definition filled (A : Relocatable) (W : MaybeRelocatable) (self : t) : Prop :=
  data self !! ident A = Some W /\ segmentIndex A < numSegments self.

End WithValues.

Arguments t : clear implicits.

End Memory.

(** ** Instructions: [vm/instruction.ts] *)

(** Modelled from the spec: [SignedInteger16.fromBiased] of [primitives/int]
    is missing.  Offsets are stored as biased 16-bit unsigned integers and
    [from_biased(u)] returns [u - 2^15]. *)
Module SignedInteger16.

Definition BIAS : Z := 2 ^ 15.

Definition fromBiased (num : Z) : Result Z := Ok (num - BIAS).

End SignedInteger16.

Module RegisterFlag.
Inductive t : Type := AP | FP.
End RegisterFlag.

Module Op1Src.
Inductive t : Type := Op0 | Imm | FP | AP.
End Op1Src.

Module ResLogic.
Inductive t : Type := Op1 | Add | Mul | Unconstrained.
End ResLogic.

Module PcUpdate.
Inductive t : Type := Regular | Jump | JumpRel | Jnz.
End PcUpdate.

Module ApUpdate.
Inductive t : Type := Regular | Add | Add1 | Add2.
End ApUpdate.

Module FpUpdate.
Inductive t : Type := Regular | ApPlus2 | Dst.
End FpUpdate.

Module Opcode.
Inductive t : Type := NoOp | Call | Ret | AssertEq.
End Opcode.

Module Instruction.

Record t : Type := mk {
  offDst : Z;
  offOp0 : Z;
  offOp1 : Z;
  dstReg : RegisterFlag.t;
  op0Reg : RegisterFlag.t;
  op1Src : Op1Src.t;
  resLogic : ResLogic.t;
  pcUpdate : PcUpdate.t;
  apUpdate : ApUpdate.t;
  fpUpdate : FpUpdate.t;
  opcode : Opcode.t
}.

(** [static default()] *)
Definition default : t :=
  mk 0 0 0 RegisterFlag.AP RegisterFlag.AP Op1Src.Op0 ResLogic.Op1
     PcUpdate.Regular ApUpdate.Regular FpUpdate.Regular Opcode.NoOp.

(** [static decodeInstruction(encodedInstruction: Uint64)].  The argument
    is a bigint; [&] and [>>] are [Z.land] and [Z.shiftr].  Every [switch]
    whose [default] returns an error is an early-returning bind. *)
Definition decodeInstruction (encodedInstruction : Z) : Result t :=
  let highBit := Z.shiftl 1 63 in
  let dstRegMask := 0x01 in
  let dstRegOff := 0 in
  let op0RegMask := 0x02 in
  let op0RegOff := 1 in
  let op1SrcMask := 0x1c in
  let op1SrcOff := 2 in
  let resLogicMask := 0x60 in
  let resLogicOff := 5 in
  let pcUpdateMask := 0x0380 in
  let pcUpdateOff := 7 in
  let apUpdateMask := 0x0c00 in
  let apUpdateOff := 10 in
  let opcodeMask := 0x7000 in
  let opcodeOff := 12 in
  if negb (Z.land highBit encodedInstruction =? 0) then Err HighBitSetError
  else
  let mask := 0xffff in
  let shift := 16 in
  bind (SignedInteger16.fromBiased (Z.land encodedInstruction mask))
    (fun offsetDst =>
  let shiftedEncodedInstruction := Z.shiftr encodedInstruction shift in
  bind (SignedInteger16.fromBiased (Z.land shiftedEncodedInstruction mask))
    (fun offsetOp0 =>
  let shiftedEncodedInstruction := Z.shiftr shiftedEncodedInstruction shift in
  bind (SignedInteger16.fromBiased (Z.land shiftedEncodedInstruction mask))
    (fun offsetOp1 =>
  let flags := Z.shiftr shiftedEncodedInstruction shift in
  let dstRegNum := Z.shiftr (Z.land flags dstRegMask) dstRegOff in
  let dstReg := if dstRegNum =? 0 then RegisterFlag.AP else RegisterFlag.FP in
  let op0RegNum := Z.shiftr (Z.land flags op0RegMask) op0RegOff in
  let op0Reg := if op0RegNum =? 0 then RegisterFlag.AP else RegisterFlag.FP in
  let op1SrcNum := Z.shiftr (Z.land flags op1SrcMask) op1SrcOff in
  bind (match op1SrcNum with
        | 0 => Ok Op1Src.Op0
        | 1 => Ok Op1Src.Imm
        | 2 => Ok Op1Src.FP
        | 4 => Ok Op1Src.AP
        | _ => Err InvalidOp1Src
        end)
    (fun op1Src =>
  let pcUpdateNum := Z.shiftr (Z.land flags pcUpdateMask) pcUpdateOff in
  bind (match pcUpdateNum with
        | 0 => Ok PcUpdate.Regular
        | 1 => Ok PcUpdate.Jump
        | 2 => Ok PcUpdate.JumpRel
        | 4 => Ok PcUpdate.Jnz
        | _ => Err InvalidPcUpdate
        end)
    (fun pcUpdate =>
  let resLogicNum := Z.shiftr (Z.land flags resLogicMask) resLogicOff in
  bind (match resLogicNum with
        | 0 => match pcUpdate with
               | PcUpdate.Jnz => Ok ResLogic.Unconstrained
               | _ => Ok ResLogic.Op1
               end
        | 1 => Ok ResLogic.Add
        | 2 => Ok ResLogic.Mul
        | _ => Err InvalidResultLogic
        end)
    (fun resLogic =>
  let opcodeNum := Z.shiftr (Z.land flags opcodeMask) opcodeOff in
  bind (match opcodeNum with
        | 0 => Ok Opcode.NoOp
        | 1 => Ok Opcode.Call
        | 2 => Ok Opcode.Ret
        | 4 => Ok Opcode.AssertEq
        | _ => Err InvalidOpcode
        end)
    (fun opcode =>
  let apUpdateNum := Z.shiftr (Z.land flags apUpdateMask) apUpdateOff in
  bind (match apUpdateNum with
        | 0 => match opcode with
               | Opcode.Call => Ok ApUpdate.Add2
               | _ => Ok ApUpdate.Regular
               end
        | 1 => Ok ApUpdate.Add
        | 2 => Ok ApUpdate.Add1
        | _ => Err InvalidApUpdate
        end)
    (fun apUpdate =>
  let fpUpdate :=
    match opcode with
    | Opcode.Call => FpUpdate.ApPlus2
    | Opcode.Ret => FpUpdate.Dst
    | _ => FpUpdate.Regular
    end in
  Ok (mk offsetDst offsetOp0 offsetOp1 dstReg op0Reg op1Src resLogic
         pcUpdate apUpdate fpUpdate opcode))))))))).

(** [size()] *)
Definition size (self : t) : Z :=
  match op1Src self with
  | Op1Src.Imm => 2
  | _ => 1
  end.

End Instruction.

(** *** The documented layout of an encoded instruction

    These definitions follow the layout table of the specification, not the
    decoder; the decoder is compared with them below. *)

Module Layout.

(** The [len]-bit field of [e] that starts at bit [lo]. *)
Definition field (e lo len : Z) : Z := (e / 2 ^ lo) mod 2 ^ len.

Definition register (bit : bool) : RegisterFlag.t :=
  if bit then RegisterFlag.FP else RegisterFlag.AP.

Definition op1_src (n : Z) : option Op1Src.t :=
  match n with
  | 0 => Some Op1Src.Op0
  | 1 => Some Op1Src.Imm
  | 2 => Some Op1Src.FP
  | 4 => Some Op1Src.AP
  | _ => None
  end.

Definition res_logic (n : Z) (pc : PcUpdate.t) : option ResLogic.t :=
  match n with
  | 0 => Some (match pc with
               | PcUpdate.Jnz => ResLogic.Unconstrained
               | _ => ResLogic.Op1
               end)
  | 1 => Some ResLogic.Add
  | 2 => Some ResLogic.Mul
  | _ => None
  end.

Definition pc_update (n : Z) : option PcUpdate.t :=
  match n with
  | 0 => Some PcUpdate.Regular
  | 1 => Some PcUpdate.Jump
  | 2 => Some PcUpdate.JumpRel
  | 4 => Some PcUpdate.Jnz
  | _ => None
  end.

Definition ap_update (n : Z) (op : Opcode.t) : option ApUpdate.t :=
  match n with
  | 0 => Some (match op with
               | Opcode.Call => ApUpdate.Add2
               | _ => ApUpdate.Regular
               end)
  | 1 => Some ApUpdate.Add
  | 2 => Some ApUpdate.Add1
  | _ => None
  end.

Definition opcode (n : Z) : option Opcode.t :=
  match n with
  | 0 => Some Opcode.NoOp
  | 1 => Some Opcode.Call
  | 2 => Some Opcode.Ret
  | 4 => Some Opcode.AssertEq
  | _ => None
  end.

Definition fp_update (op : Opcode.t) : FpUpdate.t :=
  match op with
  | Opcode.Call => FpUpdate.ApPlus2
  | Opcode.Ret => FpUpdate.Dst
  | _ => FpUpdate.Regular
  end.

(** [i] is what the table reads off the encoded word [e]. *)
Definition decodes (e : Z) (i : Instruction.t) : Prop :=
  Instruction.offDst i = field e 0 16 - 2 ^ 15 /\
  Instruction.offOp0 i = field e 16 16 - 2 ^ 15 /\
  Instruction.offOp1 i = field e 32 16 - 2 ^ 15 /\
  Instruction.dstReg i = register (Z.testbit e 48) /\
  Instruction.op0Reg i = register (Z.testbit e 49) /\
  op1_src (field e 50 3) = Some (Instruction.op1Src i) /\
  res_logic (field e 53 2) (Instruction.pcUpdate i) =
    Some (Instruction.resLogic i) /\
  pc_update (field e 55 3) = Some (Instruction.pcUpdate i) /\
  ap_update (field e 58 2) (Instruction.opcode i) =
    Some (Instruction.apUpdate i) /\
  opcode (field e 60 3) = Some (Instruction.opcode i) /\
  Instruction.fpUpdate i = fp_update (Instruction.opcode i) /\
  (Instruction.size i = 2 <-> Instruction.op1Src i = Op1Src.Imm) /\
  (Instruction.size i = 1 <-> Instruction.op1Src i <> Op1Src.Imm).

(** [err] is the error the table gives for a field of [e] that holds a
    value outside its enumeration. *)
Definition rejects (e : Z) (err : Error) : Prop :=
  (err = InvalidOp1Src /\ op1_src (field e 50 3) = None) \/
  (err = InvalidResultLogic /\ field e 53 2 = 3) \/
  (err = InvalidPcUpdate /\ pc_update (field e 55 3) = None) \/
  (err = InvalidApUpdate /\ field e 58 2 = 3) \/
  (err = InvalidOpcode /\ opcode (field e 60 3) = None).

End Layout.

(** ** The virtual machine *)

Module RunContext.

Record t (Relocatable : Type) : Type := mk {
  pc : Relocatable;
  ap : Relocatable;
  fp : Relocatable
}.

Arguments mk {Relocatable} pc ap fp.
Arguments pc {Relocatable} self : rename.
Arguments ap {Relocatable} self : rename.
Arguments fp {Relocatable} self : rename.

Definition getPc {Relocatable} (self : t Relocatable) : Relocatable := pc self.
Definition getFp {Relocatable} (self : t Relocatable) : Relocatable := fp self.

End RunContext.

Module Operands.

Record t (MaybeRelocatable : Type) : Type := mk {
  op0 : option MaybeRelocatable;
  op1 : option MaybeRelocatable;
  res : option MaybeRelocatable;
  dst : option MaybeRelocatable
}.

Arguments mk {MaybeRelocatable} op0 op1 res dst.
Arguments op0 {MaybeRelocatable} self : rename.
Arguments op1 {MaybeRelocatable} self : rename.
Arguments res {MaybeRelocatable} self : rename.
Arguments dst {MaybeRelocatable} self : rename.

End Operands.

(** The machine is written against [primitives/relocatable],
    [RunContext.computeAddress], [RunContext.computeOp1Address] and the memory
    of a [MemorySegmentManager]; none of them is among the sources.  What the
    machine uses of them is an interface here. *)

(** Words and addresses.  [MaybeRelocatable] stands for references to [Felt]
    and [Relocatable] objects, [Relocatable] for references to the latter. *)
Class Words (Relocatable MaybeRelocatable : Type) : Type := {
  (* a Relocatable used where a MaybeRelocatable is expected *)
  ofRelocatable : Relocatable -> MaybeRelocatable;
  (* [x instanceof Felt] *)
  instanceofFelt : MaybeRelocatable -> option Felt.t;
  (* [pc.add(n)] for a Uint32 [n] *)
  Relocatable_add : Relocatable -> Z -> Result MaybeRelocatable;
  (* [a.sub(b)], [a.div(b)]: only ever called on two defined words *)
  word_sub : MaybeRelocatable -> MaybeRelocatable -> Result MaybeRelocatable;
  word_div : MaybeRelocatable -> MaybeRelocatable -> Result MaybeRelocatable;
  (* [a.add(b)], [a.mul(b)]: [b] is passed on unchecked and may be undefined *)
  word_add :
    MaybeRelocatable -> option MaybeRelocatable -> Result MaybeRelocatable;
  word_mul :
    MaybeRelocatable -> option MaybeRelocatable -> Result MaybeRelocatable;
  (* [a.eq(b)] *)
  word_eq : MaybeRelocatable -> MaybeRelocatable -> bool;
  (* [runContext.computeAddress(register, offset)] *)
  computeAddress :
    RunContext.t Relocatable -> RegisterFlag.t -> Z -> Result Relocatable;
  (* [runContext.computeOp1Address(op1Src, offOp1, op0)] *)
  computeOp1Address :
    RunContext.t Relocatable -> Op1Src.t -> Z -> option MaybeRelocatable ->
    Result Relocatable
}.

(** The memory as the machine uses it: [get] yields the word or [undefined],
    [insert] returns a result. *)
Class MemoryOps (Mem Relocatable MaybeRelocatable : Type) : Type := {
  memory_get : Mem -> Relocatable -> option MaybeRelocatable;
  memory_insert : Mem -> Relocatable -> MaybeRelocatable -> Result bool * Mem
}.

(** [a === b] on two objects holds when they are the same object, which
    only a model of the objects that keeps their identity can tell. *)
Class Identity (MaybeRelocatable : Type) : Type := {
  same_object : MaybeRelocatable -> MaybeRelocatable -> bool
}.

(** [a === b] where either side may be [undefined]. *)
Definition strict_eq `{Identity MaybeRelocatable}
    (a b : option MaybeRelocatable) : bool :=
  match a, b with
  | Some x, Some y => same_object x y
  | None, None => true
  | _, _ => false
  end.

(** Computations that read and write the memory and may stop early with an
    error value or an exception. *)
Definition VM (Mem A : Type) : Type := Mem -> Result A * Mem.

Definition ret {Mem A} (a : A) : VM Mem A := fun m => (Ok a, m).

Definition lift {Mem A} (r : Result A) : VM Mem A := fun m => (r, m).

Definition bindVM {Mem A B} (c : VM Mem A) (k : A -> VM Mem B) :
    VM Mem B :=
  fun m =>
    match c m with
    | (Ok a, m') => k a m'
    | (Err e, m') => (Err e, m')
    | (Throw x, m') => (Throw x, m')
    end.

(** The machine's computations with stdpp's monad notations:
    [x ← c; k] runs [c], stops with its error or exception if it has one,
    and otherwise runs [k] on its value in the memory [c] left. *)
#[global] Instance VM_ret {Mem} : MRet (VM Mem) := @ret Mem.
#[global] Instance VM_bind {Mem} : MBind (VM Mem) :=
  fun A B k c => bindVM c k.

Section VirtualMachine.

Context {Relocatable MaybeRelocatable Mem : Type}.
Context {words : Words Relocatable MaybeRelocatable}.
Context {memory : MemoryOps Mem Relocatable MaybeRelocatable}.

Record VirtualMachine : Type := mkVirtualMachine {
  runContext : RunContext.t Relocatable;
  currentStep : Z;
  segments : Mem
}.

(** [this.segments.memory.get(address)] *)
Definition get (address : Relocatable) : VM Mem (option MaybeRelocatable) :=
  fun m => (Ok (memory_get m address), m).

(** [this.segments.memory.insert(address, value);] as a statement: the
    memory changes as [insert] changes it, what [insert] returns is dropped. *)
Definition insert (address : Relocatable) (value : MaybeRelocatable) :
    VM Mem unit :=
  fun m => (Ok tt, snd (memory_insert m address value)).

(** [if (value !== undefined) { memory.insert(address, value); }] *)
Definition insertIfDefined (address : Relocatable)
    (value : option MaybeRelocatable) : VM Mem unit :=
  match value with
  | Some v => insert address v
  | None => ret tt
  end.

(** [step()] never changes the machine, so it is a function of it. *)
Definition step (self : VirtualMachine) : Result unit :=
  match memory_get (segments self) (RunContext.getPc (runContext self)) with
  | None => Throw (BaseError EndOfInstructionsError)
  | Some encodedInstruction =>
      match instanceofFelt encodedInstruction with
      | None => Throw (BaseError InstructionError)
      | Some felt =>
          match Felt.toUint64 felt with
          | Err error => Throw (BaseError error)
          | Throw x => Throw x
          | Ok encodedInstructionUint =>
              let instruction :=
                Instruction.decodeInstruction encodedInstructionUint in
              Throw NotImplemented
          end
      end
  end.

Definition deduceOp0 (rc : RunContext.t Relocatable)
    (instruction : Instruction.t) (dst op1 : option MaybeRelocatable) :
    Result (option MaybeRelocatable * option MaybeRelocatable) :=
  (* the body of [case ResLogic.Mul], also reached by falling through from
     [case ResLogic.Add] when its condition fails *)
  let caseMul :=
    match dst, op1 with
    | Some dst', Some op1' =>
        match word_div dst' op1' with
        | Ok value => Ok (Some value, dst)
        | Err _ => Ok (None, None)
        | Throw x => Throw x
        end
    | _, _ => Ok (None, None)
    end in
  match Instruction.opcode instruction with
  | Opcode.Call =>
      let pc := RunContext.getPc rc in
      bind (Relocatable_add pc (Instruction.size instruction))
        (fun value => Ok (Some value, None))
  | Opcode.AssertEq =>
      match Instruction.resLogic instruction with
      | ResLogic.Add =>
          match dst, op1 with
          | Some dst', Some op1' =>
              bind (word_sub dst' op1') (fun value => Ok (Some value, dst))
          | _, _ => caseMul
          end
      | ResLogic.Mul => caseMul
      | _ => Ok (None, None)
      end
  | _ => Ok (None, None)
  end.

Definition deduceOp1 (instruction : Instruction.t)
    (dst op0 : option MaybeRelocatable) :
    Result (option MaybeRelocatable * option MaybeRelocatable) :=
  match Instruction.opcode instruction with
  | Opcode.AssertEq =>
      match Instruction.resLogic instruction with
      | ResLogic.Op1 => Ok (dst, dst)
      | ResLogic.Add =>
          match dst, op0 with
          | Some dst', Some op0' =>
              bind (word_sub dst' op0') (fun value => Ok (Some value, dst))
          | _, _ => Ok (None, None)
          end
      | ResLogic.Mul =>
          match dst, op0 with
          | Some dst', Some op0' =>
              match word_div dst' op0' with
              | Ok value => Ok (Some value, dst)
              | Err _ => Ok (None, None)
              | Throw x => Throw x
              end
          | _, _ => Ok (None, None)
          end
      | ResLogic.Unconstrained => Ok (None, None)
      end
  | _ => Ok (None, None)
  end.

(** [computeRes] is declared on two defined words, but its caller hands it
    [op0] and [op1] as they are ([op0 as MaybeRelocatable]); calling a method
    on [undefined] throws a [TypeError]. *)
Definition computeRes (instruction : Instruction.t)
    (op0 op1 : option MaybeRelocatable) : Result (option MaybeRelocatable) :=
  match Instruction.resLogic instruction with
  | ResLogic.Op1 => Ok op1
  | ResLogic.Add =>
      match op0 with
      | Some op0' => bind (word_add op0' op1) (fun value => Ok (Some value))
      | None => Throw TypeError
      end
  | ResLogic.Mul =>
      match op0 with
      | Some op0' => bind (word_mul op0' op1) (fun value => Ok (Some value))
      | None => Throw TypeError
      end
  | ResLogic.Unconstrained => Ok None
  end.

Definition deduceDst (rc : RunContext.t Relocatable)
    (instruction : Instruction.t) (res : option MaybeRelocatable) :
    Result (option MaybeRelocatable) :=
  match Instruction.opcode instruction with
  | Opcode.AssertEq => Ok res
  | Opcode.Call => Ok (Some (ofRelocatable (RunContext.getFp rc)))
  | _ => Ok None
  end.

Definition computeOperands (rc : RunContext.t Relocatable)
    (instruction : Instruction.t) : VM Mem (Operands.t MaybeRelocatable) :=
  dstAddr ← lift (computeAddress rc (Instruction.dstReg instruction)
                     (Instruction.offDst instruction));
  dst ← get dstAddr;
  op0Addr ← lift (computeAddress rc (Instruction.op0Reg instruction)
                     (Instruction.offOp0 instruction));
  op0 ← get op0Addr;
  op1Addr ← lift (computeOp1Address rc (Instruction.op1Src instruction)
                     (Instruction.offOp1 instruction) op0);
  op1 ← get op1Addr;
  (* if (op0 === undefined) *)
  res ← match op0 with
         | None =>
             '(deducedOp0, deducedRes) ←
                 lift (deduceOp0 rc instruction dst op1);
             _ ← insertIfDefined op0Addr deducedOp0;
             ret deducedRes
         | Some _ => ret None
         end;
  (* if (op1 === undefined) *)
  res ← match op1 with
         | None =>
             '(deducedOp1, deducedRes) ←
                 lift (deduceOp1 instruction dst op0);
             _ ← insertIfDefined op1Addr deducedOp1;
             ret (match res with None => deducedRes | Some _ => res end)
         | Some _ => ret res
         end;
  (* if (res === undefined) *)
  res ← match res with
         | None => lift (computeRes instruction op0 op1)
         | Some _ => ret res
         end;
  (* if (dst === undefined) *)
  dst ← match dst with
         | None =>
             deducedDst ← lift (deduceDst rc instruction res);
             _ ← insertIfDefined dstAddr deducedDst;
             ret deducedDst
         | Some _ => ret dst
         end;
  ret (Operands.mk op0 op1 res dst).

Definition opcodeAssertion {identity : Identity MaybeRelocatable}
    (rc : RunContext.t Relocatable)
    (instruction : Instruction.t) (operands : Operands.t MaybeRelocatable) :
    Result unit :=
  match Instruction.opcode instruction with
  | Opcode.AssertEq =>
      match Operands.res operands with
      | None => Err UnconstrainedResError
      | Some _ =>
          if negb (strict_eq (Operands.dst operands) (Operands.res operands))
          then Err DiffAssertValuesError
          else Ok tt
      end
  | Opcode.Call =>
      bind (Relocatable_add (RunContext.getPc rc)
              (Instruction.size instruction))
        (fun returnPc =>
           if match Operands.op0 operands with
              | None => true
              | Some op0 => negb (word_eq returnPc op0)
              end
           then Err InvalidOperand0
           else
             let fp := RunContext.getFp rc in
             if negb (strict_eq (Some (ofRelocatable fp))
                        (Operands.dst operands))
             then Err InvalidDstOperand
             else Ok tt)
  | _ => Ok tt
  end.

End VirtualMachine.

(** What a successful operand resolution guarantees about op0 and dst:
    [operands] and the memory [m'] result from resolving [instruction] in the
    memory [m]. *)
Definition Resolved {Relocatable MaybeRelocatable Mem : Type}
    {words : Words Relocatable MaybeRelocatable}
    {memory : MemoryOps Mem Relocatable MaybeRelocatable}
    (rc : RunContext.t Relocatable) (instruction : Instruction.t)
    (m m' : Mem) (operands : Operands.t MaybeRelocatable) : Prop :=
  exists dstAddr op0Addr,
    computeAddress rc (Instruction.dstReg instruction)
      (Instruction.offDst instruction) = Ok dstAddr /\
    computeAddress rc (Instruction.op0Reg instruction)
      (Instruction.offOp0 instruction) = Ok op0Addr /\
    (forall w, memory_get m op0Addr = Some w ->
               Operands.op0 operands = Some w) /\
    (forall w, memory_get m dstAddr = Some w ->
               Operands.dst operands = Some w) /\
    (memory_get m dstAddr = None ->
       Operands.dst operands =
         match Instruction.opcode instruction with
         | Opcode.AssertEq => Operands.res operands
         | Opcode.Call => Some (ofRelocatable (RunContext.getFp rc))
         | _ => None
         end /\
       forall d, Operands.dst operands = Some d ->
                 exists m0, m' = snd (memory_insert m0 dstAddr d)).

(** ** Words, addresses and memory as the specification describes them

    The classes of [primitives/relocatable], the address computations of the
    run context and the memory the machine runs on are not among the sources.
    The definitions of this part are written from the specification and give
    the interfaces [Words] and [MemoryOps] an instance on which the machine can
    be run. *)

Module Word.

(** Modelled from the spec: [MaybeRelocatable] and [Relocatable] are missing.
    A word is a tagged union of a field element and a segmented address
    (segment index, offset). *)
Inductive t : Type :=
  | Field (f : Felt.t)
  | Ptr (r : Z * Z).

Definition eqb (a b : t) : bool :=
  match a, b with
  | Field x, Field y => Felt.eq x y
  | Ptr (s, o), Ptr (s', o') => (s =? s') && (o =? o')
  | _, _ => false
  end.

Definition asFelt (w : t) : option Felt.t :=
  match w with Field f => Some f | Ptr _ => None end.

Definition field (r : Result Felt.t) : Result t :=
  bind r (fun f => Ok (Field f)).

(** Modelled from the spec: the source's [Felt] has no multiplication or
    division; they are field arithmetic, and division is multiplication by
    the modular inverse and fails on zero. *)
Fixpoint pow_mod (a : Z) (e : positive) (m : Z) : Z :=
  match e with
  | xH => a mod m
  | xO e' => let r := pow_mod a e' m in (r * r) mod m
  | xI e' => let r := pow_mod a e' m in (r * r * a) mod m
  end.

Definition Felt_mul (a b : Felt.t) : Result Felt.t :=
  Felt.new ((Felt.inner a * Felt.inner b) mod Felt.PRIME).

Definition Felt_inv (a : Felt.t) : Felt.t :=
  Felt.mk (pow_mod (Felt.inner a) (Z.to_pos (Felt.PRIME - 2)) Felt.PRIME).

Definition Felt_div (a b : Felt.t) : Result Felt.t :=
  if Felt.inner b =? 0 then Err DivisionByZero else Felt_mul a (Felt_inv b).

(** Modelled from the spec: [Relocatable + n] and [Relocatable - n] move the
    offset within the segment; a negative result is [OffsetUnderflow]. *)
Definition Ptr_add (r : Z * Z) (n : Z) : Result (Z * Z) :=
  Ok (fst r, snd r + n).

Definition Ptr_sub (r : Z * Z) (n : Z) : Result (Z * Z) :=
  if snd r - n <? 0 then Err OffsetUnderflow else Ok (fst r, snd r - n).

Definition ptr (r : Result (Z * Z)) : Result t :=
  bind r (fun p => Ok (Ptr p)).

(** Modelled from the spec: the legal combinations of word arithmetic are
    Field with Field for all four operations, Relocatable plus or minus Field,
    and Relocatable minus Relocatable on one segment; every other combination
    is an error.  An absent right operand is no word and is refused as well. *)
Definition add (a : t) (b : option t) : Result t :=
  match a, b with
  | Field x, Some (Field y) => field (Felt.add x y)
  | Ptr r, Some (Field y) => ptr (Ptr_add r (Felt.inner y))
  | _, _ => Err TypeMismatch
  end.

Definition sub (a b : t) : Result t :=
  match a, b with
  | Field x, Field y => field (Felt.sub x y)
  | Ptr r, Field y => ptr (Ptr_sub r (Felt.inner y))
  | Ptr (s, o), Ptr (s', o') =>
      if s =? s' then Ok (Field (Felt.mk ((o - o') mod Felt.PRIME)))
      else Err SegmentMismatch
  | Field _, Ptr _ => Err TypeMismatch
  end.

Definition mul (a : t) (b : option t) : Result t :=
  match a, b with
  | Field x, Some (Field y) => field (Felt_mul x y)
  | _, _ => Err TypeMismatch
  end.

Definition div (a b : t) : Result t :=
  match a, b with
  | Field x, Field y => field (Felt_div x y)
  | _, _ => Err TypeMismatch
  end.

(** Modelled from the spec: [compute_address(register, offset)] is the
    register's address moved by the signed offset. *)
Definition offsetBy (base : Z * Z) (off : Z) : Result (Z * Z) :=
  if off <? 0 then Ptr_sub base (- off) else Ptr_add base off.

Definition computeAddress (rc : RunContext.t (Z * Z)) (reg : RegisterFlag.t)
    (off : Z) : Result (Z * Z) :=
  match reg with
  | RegisterFlag.AP => offsetBy (RunContext.ap rc) off
  | RegisterFlag.FP => offsetBy (RunContext.fp rc) off
  end.

(** Modelled from the spec: the address of op1 is the value of op0 (which
    must be a Relocatable, else [TypeMismatch]) plus the offset, or [pc] plus
    the offset (which must be 1; the specification names no error for
    another offset, [TypeMismatch] stands for it), or [fp] or [ap] plus the
    offset. *)
Definition computeOp1Address (rc : RunContext.t (Z * Z)) (src : Op1Src.t)
    (off : Z) (op0 : option t) : Result (Z * Z) :=
  match src with
  | Op1Src.Op0 =>
      match op0 with
      | Some (Ptr r) => offsetBy r off
      | _ => Err TypeMismatch
      end
  | Op1Src.Imm =>
      if off =? 1 then offsetBy (RunContext.pc rc) off else Err TypeMismatch
  | Op1Src.FP => offsetBy (RunContext.fp rc) off
  | Op1Src.AP => offsetBy (RunContext.ap rc) off
  end.

End Word.

Module SegmentedMemory.

(** Modelled from the spec: the memory the machine runs on is missing.  It
    maps addresses, compared by value, to words; [insert] fails with
    [SegmentError] when the segment does not exist and with [WriteOnceError]
    when the cell holds a different word, and succeeds when the cell is
    empty or holds an equal word; [get] yields the word or nothing. *)
Record t : Type := mk {
  cells : gmap (Z * Z) Word.t;
  num_segments : Z
}.

Definition empty (n : Z) : t := {| cells := ∅; num_segments := n |}.

Definition get (m : t) (addr : Z * Z) : option Word.t := cells m !! addr.

Definition insert (m : t) (addr : Z * Z) (word : Word.t) : Result bool * t :=
  if fst addr >=? num_segments m then (Err SegmentError, m)
  else match cells m !! addr with
       | Some w =>
           if Word.eqb w word then (Ok true, m) else (Err WriteOnceError, m)
       | None =>
           (Ok true,
            {| cells := <[addr := word]> (cells m);
               num_segments := num_segments m |})
       end.

(** [load_data]: sequential insertion, used to set up a memory. *)
Definition store (m : t) (addr : Z * Z) (word : Word.t) : t :=
  snd (insert m addr word).

End SegmentedMemory.

#[global] Instance Word_Words : Words (Z * Z) Word.t := {|
  ofRelocatable := Word.Ptr;
  instanceofFelt := Word.asFelt;
  Relocatable_add := fun r n => Word.ptr (Word.Ptr_add r n);
  word_sub := Word.sub;
  word_div := Word.div;
  word_add := Word.add;
  word_mul := Word.mul;
  word_eq := Word.eqb;
  computeAddress := Word.computeAddress;
  computeOp1Address := Word.computeOp1Address
|}.

#[global] Instance SegmentedMemory_MemoryOps :
    MemoryOps SegmentedMemory.t (Z * Z) Word.t := {|
  memory_get := SegmentedMemory.get;
  memory_insert := SegmentedMemory.insert
|}.

(** Objects with an identity: what [===] compares.  A word object is created
    once and never changes, so a reference is the identity together with the
    word it holds. *)
Module Heap.

Record Obj : Type := mkObj { ident : positive; word : Word.t }.

(** The object a computation allocates for its result gets the identity
    [fresh].  There is no allocator: every allocation of a run gets this
    one identity, so the objects suit runs in which at most one allocated
    object is ever compared by identity, and [fresh] is to be chosen apart
    from the identities of the objects already there. *)
Definition alloc (fresh : positive) (r : Result Word.t) : Result Obj :=
  bind r (fun w => Ok (mkObj fresh w)).

Definition address (o : Obj) : Result (Z * Z) :=
  match word o with
  | Word.Ptr r => Ok r
  | Word.Field _ => Err TypeMismatch
  end.

Definition context (rc : RunContext.t Obj) : Result (RunContext.t (Z * Z)) :=
  bind (address (RunContext.pc rc)) (fun pc =>
  bind (address (RunContext.ap rc)) (fun ap =>
  bind (address (RunContext.fp rc)) (fun fp =>
  Ok (RunContext.mk pc ap fp)))).

End Heap.

#[global] Instance Heap_Identity : Identity Heap.Obj := {|
  same_object := fun a b => Pos.eqb (Heap.ident a) (Heap.ident b)
|}.

Definition Heap_Words (fresh : positive) : Words Heap.Obj Heap.Obj := {|
  ofRelocatable := fun o => o;
  instanceofFelt := fun o => Word.asFelt (Heap.word o);
  Relocatable_add := fun o n =>
    bind (Heap.address o) (fun r =>
    Heap.alloc fresh (Word.ptr (Word.Ptr_add r n)));
  word_sub := fun a b =>
    Heap.alloc fresh (Word.sub (Heap.word a) (Heap.word b));
  word_div := fun a b =>
    Heap.alloc fresh (Word.div (Heap.word a) (Heap.word b));
  word_add := fun a b =>
    Heap.alloc fresh (Word.add (Heap.word a) (option_map Heap.word b));
  word_mul := fun a b =>
    Heap.alloc fresh (Word.mul (Heap.word a) (option_map Heap.word b));
  word_eq := fun a b => Word.eqb (Heap.word a) (Heap.word b);
  computeAddress := fun rc reg off =>
    bind (Heap.context rc) (fun rc' =>
    bind (Word.computeAddress rc' reg off) (fun r =>
    Ok (Heap.mkObj fresh (Word.Ptr r))));
  computeOp1Address := fun rc src off op0 =>
    bind (Heap.context rc) (fun rc' =>
    bind (Word.computeOp1Address rc' src off (option_map Heap.word op0))
      (fun r => Ok (Heap.mkObj fresh (Word.Ptr r))))
|}.

(** ** Concrete runs *)

Module Run.

(** Registers of the scenarios: the program in segment 0, the execution
    segment 1. *)
Definition registers (pc ap fp : Z * Z) : RunContext.t (Z * Z) :=
  RunContext.mk pc ap fp.

Definition felt (n : Z) : Word.t := Word.Field (Felt.mk n).

(** Two segments, nothing written. *)
Definition blank : SegmentedMemory.t := SegmentedMemory.empty 2.

(** NoOp with every operand addressed off [ap]. *)
Definition noop (resLogic : ResLogic.t) : Instruction.t :=
  Instruction.mk 0 1 2 RegisterFlag.AP RegisterFlag.AP Op1Src.AP resLogic
    PcUpdate.Regular ApUpdate.Regular FpUpdate.Regular Opcode.NoOp.

(** AssertEq with dst at [fp + 0], op0 at [ap + 1], op1 at [ap + 0]. *)
Definition assertEq (resLogic : ResLogic.t) : Instruction.t :=
  Instruction.mk 0 1 0 RegisterFlag.FP RegisterFlag.AP Op1Src.AP resLogic
    PcUpdate.Regular ApUpdate.Regular FpUpdate.Regular Opcode.AssertEq.

(** Call with an immediate op1 and both dst and op0 at [ap + 0]. *)
Definition call : Instruction.t :=
  Instruction.mk 0 0 1 RegisterFlag.AP RegisterFlag.AP Op1Src.Imm ResLogic.Op1
    PcUpdate.Jump ApUpdate.Add2 FpUpdate.ApPlus2 Opcode.Call.

(** The encoding of [assertEq ResLogic.Op1]. *)
Definition encoded : Z := 0x4011800080018000.

(** The first scenario of the specification: the encoded instruction at
    [pc = (0, 0)], 7 at [ap + 0], [ap = fp = (1, 0)]. *)
Definition scenario : VirtualMachine :=
  mkVirtualMachine (registers (0, 0) (1, 0) (1, 0)) 0
    (SegmentedMemory.store (SegmentedMemory.store blank (0, 0) (felt encoded))
       (1, 0) (felt 7)).


(** Word objects: two distinct objects holding 7, and registers that are
    objects of their own. *)
Definition seven : Heap.Obj := Heap.mkObj 1 (felt 7).
Definition seven' : Heap.Obj := Heap.mkObj 2 (felt 7).
Definition fpCopy : Heap.Obj := Heap.mkObj 3 (Word.Ptr (1, 0)).
Definition returnPc : Heap.Obj := Heap.mkObj 4 (Word.Ptr (0, 2)).

Definition objects : RunContext.t Heap.Obj :=
  RunContext.mk (Heap.mkObj 10 (Word.Ptr (0, 0)))
    (Heap.mkObj 11 (Word.Ptr (1, 0))) (Heap.mkObj 12 (Word.Ptr (1, 0))).

End Run.

(** The memory of the source's own test: one segment, and the address
    [new Relocatable(0, 0)] written once with 10. *)
Definition address00 : Memory.Relocatable := Memory.mkRelocatable 1 0 0.

Definition oneSegment : Memory.t Felt.t :=
  Memory.incrementNumSegments Memory.new.

Definition oneCell : Memory.t Felt.t :=
  snd (Memory.insert oneSegment address00 (Felt.mk 10)).

(** ** Definitions for the further properties *)

(** Field elements the constructor accepts, and those that are reduced. *)
Definition Felt_valid (f : Felt.t) : Prop := 0 <= Felt.inner f <= Felt.PRIME.
Definition Felt_reduced (f : Felt.t) : Prop := 0 <= Felt.inner f < Felt.PRIME.

(** The number of [incrementNumSegments] among a sequence of memory
    operations. *)
Fixpoint increments {V} (ops : list (@Memory.op V)) : Z :=
  match ops with
  | [] => 0
  | Memory.IncrementNumSegments :: ops' => 1 + increments ops'
  | Memory.Insert _ _ :: ops' => increments ops'
  end.

(** A second [new Relocatable(0, 0)]: the same segment and offset as
    [address00], another object. *)
Definition address00' : Memory.Relocatable := Memory.mkRelocatable 2 0 0.

(** The encoding the layout table documents, used to compare encoded words
    through the instructions they decode to. *)
Module Encoding.

Definition register (r : RegisterFlag.t) : Z :=
  match r with RegisterFlag.AP => 0 | RegisterFlag.FP => 1 end.

Definition op1_src (s : Op1Src.t) : Z :=
  match s with
  | Op1Src.Op0 => 0 | Op1Src.Imm => 1 | Op1Src.FP => 2 | Op1Src.AP => 4
  end.

Definition res_logic (r : ResLogic.t) : Z :=
  match r with
  | ResLogic.Op1 | ResLogic.Unconstrained => 0
  | ResLogic.Add => 1
  | ResLogic.Mul => 2
  end.

Definition pc_update (p : PcUpdate.t) : Z :=
  match p with
  | PcUpdate.Regular => 0 | PcUpdate.Jump => 1 | PcUpdate.JumpRel => 2
  | PcUpdate.Jnz => 4
  end.

Definition ap_update (a : ApUpdate.t) : Z :=
  match a with
  | ApUpdate.Regular | ApUpdate.Add2 => 0
  | ApUpdate.Add => 1
  | ApUpdate.Add1 => 2
  end.

Definition opcode (o : Opcode.t) : Z :=
  match o with
  | Opcode.NoOp => 0 | Opcode.Call => 1 | Opcode.Ret => 2 | Opcode.AssertEq => 4
  end.

Definition encode (i : Instruction.t) : Z :=
  (Instruction.offDst i + 2 ^ 15)
  + 2 ^ 16 * (Instruction.offOp0 i + 2 ^ 15)
  + 2 ^ 32 * (Instruction.offOp1 i + 2 ^ 15)
  + 2 ^ 48 * register (Instruction.dstReg i)
  + 2 ^ 49 * register (Instruction.op0Reg i)
  + 2 ^ 50 * op1_src (Instruction.op1Src i)
  + 2 ^ 53 * res_logic (Instruction.resLogic i)
  + 2 ^ 55 * pc_update (Instruction.pcUpdate i)
  + 2 ^ 58 * ap_update (Instruction.apUpdate i)
  + 2 ^ 60 * opcode (Instruction.opcode i).

End Encoding.

(** ** The memory effect of a computation *)

Section Writes.

Context {Relocatable MaybeRelocatable Mem : Type}.
Context {memory : MemoryOps Mem Relocatable MaybeRelocatable}.

(** [writes_to P m m']: the memory [m'] is reached from [m] by calls of
    [insert], each at an address that satisfies [P]. *)
Inductive writes_to (P : Relocatable -> Prop) : Mem -> Mem -> Prop :=
  | writes_none (m : Mem) : writes_to P m m
  | writes_insert (m m1 : Mem) (a : Relocatable) (v : MaybeRelocatable) :
      writes_to P m m1 -> P a ->
      writes_to P m (snd (memory_insert m1 a v)).

End Writes.

(** ** The run context of [run-context/runContext.ts] *)

Section ComputeDstAddress.

(** [UnsignedInteger.toUint32] and the [add] and [sub] of the registers'
    classes are not among the sources; they are parameters. *)
Context {Relocatable : Type}.
Variable toUint32 : Z -> Result Z.
Variable add : Relocatable -> Z -> Result Relocatable.
Variable sub : Relocatable -> Z -> Result Relocatable.

Definition computeDstAddress (self : RunContext.t Relocatable)
    (instruction : Instruction.t) : Result Relocatable :=
  let offsetIsNegative :=
    if Instruction.offDst instruction <? 0 then 1 else 0 in
  bind (toUint32 (-1 * offsetIsNegative * Instruction.offDst instruction
                  + (1 - offsetIsNegative) * Instruction.offDst instruction))
    (fun offDst =>
       match Instruction.dstReg instruction with
       | RegisterFlag.AP =>
           if negb (offsetIsNegative =? 0)
           then sub (RunContext.ap self) offDst
           else add (RunContext.ap self) offDst
       | RegisterFlag.FP =>
           if negb (offsetIsNegative =? 0)
           then sub (RunContext.fp self) offDst
           else add (RunContext.fp self) offDst
       end).

End ComputeDstAddress.

(** Modelled from the spec: [UnsignedInteger.toUint32] of [primitives/uint]
    is missing; the conversion succeeds iff the value fits in 32 bits. *)
Definition toUint32 (num : Z) : Result Z :=
  if (0 <=? num) && (num <? 2 ^ 32) then Ok num else Err NumberConversionError.

(** Modelled from the spec: a memory of word objects.  It maps addresses,
    compared by value, to the objects written; a cell is written once. *)
Module ObjectMemory.

Definition get (m : gmap (Z * Z) Heap.Obj) (a : Heap.Obj) : option Heap.Obj :=
  match Heap.word a with
  | Word.Ptr r => m !! r
  | Word.Field _ => None
  end.

Definition insert (m : gmap (Z * Z) Heap.Obj) (a : Heap.Obj) (v : Heap.Obj) :
    Result bool * gmap (Z * Z) Heap.Obj :=
  match Heap.word a with
  | Word.Ptr r =>
      match m !! r with
      | Some w =>
          if Word.eqb (Heap.word w) (Heap.word v) then (Ok true, m)
          else (Err WriteOnceError, m)
      | None => (Ok true, <[r := v]> m)
      end
  | Word.Field _ => (Err TypeMismatch, m)
  end.

End ObjectMemory.

#[global] Instance ObjectMemory_MemoryOps :
    MemoryOps (gmap (Z * Z) Heap.Obj) Heap.Obj Heap.Obj := {|
  memory_get := ObjectMemory.get;
  memory_insert := ObjectMemory.insert
|}.

Module RunObjects.

(** The first scenario on word objects: 7 at [ap + 0 = (1, 1)], the cells of
    dst [(1, 0)] and op0 [(1, 2)] empty. *)
Definition registers : RunContext.t Heap.Obj :=
  RunContext.mk (Heap.mkObj 10 (Word.Ptr (0, 0)))
    (Heap.mkObj 11 (Word.Ptr (1, 1))) (Heap.mkObj 12 (Word.Ptr (1, 0))).

Definition cells : gmap (Z * Z) Heap.Obj := {[ (1, 1) := Run.seven ]}.

(** A call frame: the immediate 5 at [pc + 1], the cells at [ap] empty. *)
Definition callCells : gmap (Z * Z) Heap.Obj :=
  {[ (0, 1) := Heap.mkObj 5 (Run.felt 5) ]}.

(** A word whose high bit is set, at [pc]. *)
Definition highBit : VirtualMachine (Relocatable := Z * Z) :=
  mkVirtualMachine (Run.registers (0, 0) (1, 0) (1, 0)) 0
    (SegmentedMemory.store Run.blank (0, 0) (Run.felt (2 ^ 63))).

End RunObjects.

(** Instructions and words for the further runs. *)
Module RunMore.

(** AssertEq with dst at [fp + 0], op0 at [ap + 1], op1 at [fp + 1]. *)
Definition assertEqOp0 : Instruction.t :=
  Instruction.mk 0 1 1 RegisterFlag.FP RegisterFlag.AP Op1Src.FP ResLogic.Add
    PcUpdate.Regular ApUpdate.Regular FpUpdate.Regular Opcode.AssertEq.

(** AssertEq with dst at [fp + 0], op0 at [fp + 1], op1 at [ap + 0]. *)
Definition assertEqOp1 : Instruction.t :=
  Instruction.mk 0 1 0 RegisterFlag.FP RegisterFlag.FP Op1Src.AP ResLogic.Add
    PcUpdate.Regular ApUpdate.Regular FpUpdate.Regular Opcode.AssertEq.

(** One segment; [fp = (0, 5)] lies in it, [ap = (1, 0)] in none. *)
Definition oneSegmentRegisters : RunContext.t (Z * Z) :=
  Run.registers (0, 0) (1, 0) (0, 5).

(** 7 at [fp + 0] and 3 at [fp + 1]. *)
Definition frame : SegmentedMemory.t :=
  SegmentedMemory.store
    (SegmentedMemory.store (SegmentedMemory.empty 1) (0, 5) (Run.felt 7))
    (0, 6) (Run.felt 3).

(** 7 at [(0, 1)] and 9 at [(0, 2)], the cells an AssertEq addresses as
    [ap + 0] and [ap + 1] when [ap = (0, 1)]. *)
Definition operand : SegmentedMemory.t :=
  SegmentedMemory.store
    (SegmentedMemory.store (SegmentedMemory.empty 1) (0, 1) (Run.felt 7))
    (0, 2) (Run.felt 9).

(** The immediate 5 of a call at [pc + 1]. *)
Definition immediate : SegmentedMemory.t :=
  SegmentedMemory.store Run.blank (0, 1) (Run.felt 5).

(** [jmp rel 1 if [ap] != 0]: NoOp with pc_update Jnz and an immediate. *)
Definition jnz : Instruction.t :=
  Instruction.mk 0 0 1 RegisterFlag.AP RegisterFlag.AP Op1Src.Imm
    ResLogic.Unconstrained PcUpdate.Jnz ApUpdate.Regular FpUpdate.Regular
    Opcode.NoOp.

Definition jnzEncoded : Z := 0x0204800180008000.

(** [ret]. *)
Definition retInstruction : Instruction.t :=
  Instruction.mk (-2) (-1) (-1) RegisterFlag.FP RegisterFlag.FP Op1Src.FP
    ResLogic.Op1 PcUpdate.Jump ApUpdate.Regular FpUpdate.Dst Opcode.Ret.

Definition retEncoded : Z := 0x208b7fff7fff7ffe.

(** The encoding of [Run.call]. *)
Definition callEncoded : Z := 0x1084800180008000.

End RunMore.

(** * Properties *)

(** ** Field elements *)

Lemma Felt_PRIME_value : Felt.PRIME = 2 ^ 251 + 17 * 2 ^ 192 + 1.
Proof. reflexivity. Qed.

(** C8 (as stated) fails: constructing a field element from [-10] throws
    instead of yielding the residue of [-10] modulo the prime. *)
Lemma Felt_new_negative_throws :
  Felt.new (-10) = Throw FeltError /\
  ~ (exists f, Felt.new (-10) = Ok f /\ Felt.inner f = (-10) mod Felt.PRIME).
Proof.
  split; [reflexivity|]. intros [f [H _]]. discriminate H.
Qed.

(** C8 (amended): for every integer [i] with [0 <= i < p] construction
    succeeds and stores [i], which is its own residue modulo
    [p = 2^251 + 17 * 2^192 + 1] and lies in [[0, p)]; for [i < 0] and for
    [i > p] construction throws [FeltError]. *)
Theorem Felt_new_range (i : Z) :
  Felt.PRIME = 2 ^ 251 + 17 * 2 ^ 192 + 1 /\
  (0 <= i < Felt.PRIME ->
     Felt.new i = Ok (Felt.mk i) /\ i = i mod Felt.PRIME) /\
  (i < 0 \/ Felt.PRIME < i -> Felt.new i = Throw FeltError).
Proof.
  split; [reflexivity|]. unfold Felt.new. split.
  - intros Hi. split.
    + destruct (i <? 0) eqn:E1; [lia|].
      destruct (i >? Felt.PRIME) eqn:E2; [lia|]. reflexivity.
    + symmetry. apply Z.mod_small. exact Hi.
  - intros [Hi|Hi].
    + destruct (i <? 0) eqn:E1; [reflexivity|lia].
    + destruct (i >? Felt.PRIME) eqn:E2; [|lia].
      now rewrite orb_true_r.
Qed.

Lemma Felt_new_range_witness :
  (Felt.new 10 = Ok (Felt.mk 10) /\ 10 = 10 mod Felt.PRIME) /\
  Felt.new (-10) = Throw FeltError /\
  Felt.new (Felt.PRIME + 1) = Throw FeltError.
Proof.
  split; [|split].
  - apply (proj1 (proj2 (Felt_new_range 10))). unfold Felt.PRIME. lia.
  - apply (proj2 (proj2 (Felt_new_range (-10)))). left. reflexivity.
  - apply (proj2 (proj2 (Felt_new_range (Felt.PRIME + 1)))). right. reflexivity.
Defined.

(** ** Write-once memory *)

Section MemoryFacts.

Context {V : Type}.

(** A filled cell of an existing segment stays as it is under every
    operation on the memory. *)
Lemma insert_filled (m m1 : Memory.t V) A W :
  Memory.insert m A W = (Ok true, m1) -> Memory.filled A W m1.
Proof.
  unfold Memory.insert, Memory.filled.
  destruct (Z.geb_spec (Memory.segmentIndex A) (Memory.numSegments m));
    [discriminate|].
  destruct (Memory.data m !! Memory.ident A); [discriminate|].
  intros [= <-]. cbn. rewrite lookup_insert_eq. split; [reflexivity|lia].
Qed.

Lemma filled_insert (m : Memory.t V) A W W' :
  Memory.filled A W m -> Memory.insert m A W' = (Err WriteOnceError, m).
Proof.
  intros [Hd Hs]. unfold Memory.insert.
  destruct (Z.geb_spec (Memory.segmentIndex A) (Memory.numSegments m)); [lia|].
  rewrite Hd. reflexivity.
Qed.

Lemma filled_apply (m : Memory.t V) A W o :
  Memory.filled A W m -> Memory.filled A W (Memory.apply m o).
Proof.
  intros [Hd Hs]. destruct o as [B X|]; cbn.
  - unfold Memory.insert.
    destruct (Memory.segmentIndex B >=? Memory.numSegments m);
      [split; assumption|].
    destruct (Memory.data m !! Memory.ident B) eqn:HB; [split; assumption|].
    split; [|exact Hs]. cbn. rewrite lookup_insert_ne; [exact Hd|].
    intros Heq. rewrite Heq in HB. congruence.
  - split; [exact Hd|]. cbn. lia.
Qed.

Lemma filled_run ops : forall (m : Memory.t V) A W,
  Memory.filled A W m -> Memory.filled A W (Memory.run ops m).
Proof.
  induction ops as [|o ops IH]; intros m A W H; [exact H|].
  cbn. apply IH. apply filled_apply. exact H.
Qed.

(** C1 (amended): for every [Relocatable] object [A] and words [W], [W']:
    if [insert(A, W)] succeeds, then after any further inserts and new
    segments an [insert(A, W')] through that same object [A] fails with
    [WriteOnceError], whether [W'] equals [W] or not, the memory is left as
    it was, and [get(A)] is still [W].  The cells are the keys of a [Map],
    which are compared as objects: [A] here is one object, and nothing is
    stated about another [Relocatable] object with the same segment and
    offset. *)
Theorem insert_write_once (m m1 : Memory.t V) (ops : list Memory.op) A W W' :
  Memory.insert m A W = (Ok true, m1) ->
  Memory.insert (Memory.run ops m1) A W' =
    (Err WriteOnceError, Memory.run ops m1) /\
  Memory.get (Memory.run ops m1) A = Ok W.
Proof.
  intros H. apply insert_filled in H. apply (filled_run ops) in H.
  split; [apply (filled_insert _ _ W), H|].
  unfold Memory.get. destruct H as [-> _]. reflexivity.
Qed.

End MemoryFacts.

(** C1 (as stated) fails: after [insert(A, 10)] has succeeded, inserting the
    equal word [10] at [A] again fails with [WriteOnceError]; and through
    another object for the address (0, 0) the unequal word [3] is inserted
    successfully. *)
Lemma insert_equal_word_fails :
  Memory.insert oneSegment address00 (Felt.mk 10) = (Ok true, oneCell) /\
  fst (Memory.insert oneCell address00 (Felt.mk 10)) = Err WriteOnceError /\
  Felt.mk 10 = Felt.mk 10 /\
  Memory.segmentIndex address00' = Memory.segmentIndex address00 /\
  Memory.offset address00' = Memory.offset address00 /\
  fst (Memory.insert oneCell address00' (Felt.mk 3)) = Ok true /\
  Felt.mk 3 <> Felt.mk 10.
Proof. repeat split. discriminate. Qed.

Lemma insert_write_once_witness :
  Memory.insert (Memory.run [Memory.IncrementNumSegments] oneCell) address00
    (Felt.mk 10) =
    (Err WriteOnceError, Memory.run [Memory.IncrementNumSegments] oneCell) /\
  Memory.get (Memory.run [Memory.IncrementNumSegments] oneCell) address00 =
    Ok (Felt.mk 10).
Proof.
  apply (insert_write_once oneSegment oneCell [Memory.IncrementNumSegments]
           address00 (Felt.mk 10) (Felt.mk 10)).
  reflexivity.
Defined.

(** C9: reading an address that was never written returns the error
    [UnknownAddressError], not an absent value. *)
Theorem get_unwritten_is_error :
  Memory.get (Memory.new : Memory.t Felt.t) address00 = Err UnknownAddressError.
Proof. reflexivity. Qed.

(** ** Instruction decoding *)

Lemma land_highBit e :
  (Z.land (Z.shiftl 1 63) e =? 0) = negb (Z.testbit e 63).
Proof.
  change (Z.shiftl 1 63) with (2 ^ 63).
  destruct (Z.testbit e 63) eqn:Hb; simpl.
  - apply Z.eqb_neq. intros H0.
    assert (Z.testbit (Z.land (2 ^ 63) e) 63 = true).
    { rewrite Z.land_spec, Hb, Z.pow2_bits_true by lia. reflexivity. }
    rewrite H0 in H. rewrite Z.bits_0 in H. discriminate.
  - apply Z.eqb_eq. apply Z.bits_inj'. intros n Hn.
    rewrite Z.land_spec, Z.bits_0, Z.pow2_bits_eqb by lia.
    destruct (Z.eqb_spec 63 n) as [<-|]; [now rewrite Hb|reflexivity].
Qed.

Lemma shiftr_land_field e mask lo off len :
  0 <= lo -> 0 <= off -> 0 <= len -> Z.shiftr mask off = Z.ones len ->
  Z.shiftr (Z.land (Z.shiftr e lo) mask) off = Layout.field e (lo + off) len.
Proof.
  intros Hlo Ho Hl Hm. unfold Layout.field.
  rewrite Z.shiftr_land, Hm, Z.land_ones, Z.shiftr_shiftr, Z.shiftr_div_pow2
    by lia.
  reflexivity.
Qed.

Lemma land_field e lo len :
  0 <= lo -> 0 <= len ->
  Z.land (Z.shiftr e lo) (Z.ones len) = Layout.field e lo len.
Proof.
  intros Hlo Hl. unfold Layout.field.
  rewrite Z.land_ones, Z.shiftr_div_pow2 by lia. reflexivity.
Qed.

Lemma land_field0 e len :
  0 <= len -> Z.land e (Z.ones len) = Layout.field e 0 len.
Proof.
  intros Hl. unfold Layout.field.
  rewrite Z.land_ones, Z.pow_0_r, Z.div_1_r by lia. reflexivity.
Qed.

Lemma field_bit e n : 0 <= n ->
  (Layout.field e n 1 =? 0) = negb (Z.testbit e n).
Proof.
  intros Hn. unfold Layout.field. change (2 ^ 1) with 2.
  rewrite <- Z.testbit_spec' by lia.
  destruct (Z.testbit e n); reflexivity.
Qed.

Lemma field_bound e lo len : 0 <= len -> 0 <= Layout.field e lo len < 2 ^ len.
Proof. intros Hl. apply Z.mod_pos_bound. lia. Qed.

Ltac switch_cases :=
  repeat match goal with
         | |- context [match ?x with _ => _ end] => destruct x; try reflexivity
         end.

Lemma op1_src_switch n :
  match n with
  | 0 => Ok Op1Src.Op0 | 1 => Ok Op1Src.Imm | 2 => Ok Op1Src.FP
  | 4 => Ok Op1Src.AP | _ => Err InvalidOp1Src
  end = orErr InvalidOp1Src (Layout.op1_src n).
Proof. unfold Layout.op1_src. switch_cases. Qed.

Lemma pc_update_switch n :
  match n with
  | 0 => Ok PcUpdate.Regular | 1 => Ok PcUpdate.Jump | 2 => Ok PcUpdate.JumpRel
  | 4 => Ok PcUpdate.Jnz | _ => Err InvalidPcUpdate
  end = orErr InvalidPcUpdate (Layout.pc_update n).
Proof. unfold Layout.pc_update. switch_cases. Qed.

Lemma res_logic_switch n pc :
  match n with
  | 0 => match pc with
         | PcUpdate.Jnz => Ok ResLogic.Unconstrained
         | _ => Ok ResLogic.Op1
         end
  | 1 => Ok ResLogic.Add | 2 => Ok ResLogic.Mul
  | _ => Err InvalidResultLogic
  end = orErr InvalidResultLogic (Layout.res_logic n pc).
Proof. unfold Layout.res_logic. destruct pc; switch_cases. Qed.

Lemma opcode_switch n :
  match n with
  | 0 => Ok Opcode.NoOp | 1 => Ok Opcode.Call | 2 => Ok Opcode.Ret
  | 4 => Ok Opcode.AssertEq | _ => Err InvalidOpcode
  end = orErr InvalidOpcode (Layout.opcode n).
Proof. unfold Layout.opcode. switch_cases. Qed.

Lemma ap_update_switch n op :
  match n with
  | 0 => match op with
         | Opcode.Call => Ok ApUpdate.Add2
         | _ => Ok ApUpdate.Regular
         end
  | 1 => Ok ApUpdate.Add | 2 => Ok ApUpdate.Add1
  | _ => Err InvalidApUpdate
  end = orErr InvalidApUpdate (Layout.ap_update n op).
Proof. unfold Layout.ap_update. destruct op; switch_cases. Qed.

Lemma res_logic_None n pc :
  0 <= n < 4 -> Layout.res_logic n pc = None -> n = 3.
Proof.
  intros Hn. unfold Layout.res_logic.
  repeat match goal with
         | |- context [match ?x with _ => _ end] =>
             destruct x; try discriminate; try lia
         end.
Qed.

Lemma ap_update_None n op :
  0 <= n < 4 -> Layout.ap_update n op = None -> n = 3.
Proof.
  intros Hn. unfold Layout.ap_update.
  repeat match goal with
         | |- context [match ?x with _ => _ end] =>
             destruct x; try discriminate; try lia
         end.
Qed.

Lemma size_Imm i :
  (Instruction.size i = 2 <-> Instruction.op1Src i = Op1Src.Imm) /\
  (Instruction.size i = 1 <-> Instruction.op1Src i <> Op1Src.Imm).
Proof.
  unfold Instruction.size.
  destruct (Instruction.op1Src i); (split; split; try congruence; try lia).
Qed.

(** The decoder, with every bit operation replaced by the field it reads
    and every [switch] by the table it implements. *)
Lemma decodeInstruction_fields e :
  Instruction.decodeInstruction e =
    if Z.testbit e 63 then Err HighBitSetError
    else
      bind (orErr InvalidOp1Src (Layout.op1_src (Layout.field e 50 3)))
        (fun op1Src =>
      bind (orErr InvalidPcUpdate (Layout.pc_update (Layout.field e 55 3)))
        (fun pcUpdate =>
      bind (orErr InvalidResultLogic
              (Layout.res_logic (Layout.field e 53 2) pcUpdate))
        (fun resLogic =>
      bind (orErr InvalidOpcode (Layout.opcode (Layout.field e 60 3)))
        (fun opcode =>
      bind (orErr InvalidApUpdate
              (Layout.ap_update (Layout.field e 58 2) opcode))
        (fun apUpdate =>
      Ok (Instruction.mk (Layout.field e 0 16 - 2 ^ 15)
            (Layout.field e 16 16 - 2 ^ 15) (Layout.field e 32 16 - 2 ^ 15)
            (Layout.register (Z.testbit e 48))
            (Layout.register (Z.testbit e 49))
            op1Src resLogic pcUpdate apUpdate
            (Layout.fp_update opcode) opcode)))))).
Proof.
  unfold Instruction.decodeInstruction, SignedInteger16.fromBiased,
    SignedInteger16.BIAS.
  cbv zeta. rewrite land_highBit, negb_involutive.
  destruct (Z.testbit e 63); [reflexivity|].
  cbn [bind].
  rewrite !Z.shiftr_shiftr by lia.
  change (16 + (16 + 16)) with 48. change (16 + 16) with 32.
  change 65535 with (Z.ones 16).
  rewrite !land_field, (land_field0 e 16) by lia.
  rewrite (shiftr_land_field e 1 48 0 1), (shiftr_land_field e 2 48 1 1),
    (shiftr_land_field e 28 48 2 3), (shiftr_land_field e 896 48 7 3),
    (shiftr_land_field e 96 48 5 2), (shiftr_land_field e 28672 48 12 3),
    (shiftr_land_field e 3072 48 10 2) by (reflexivity || lia).
  change (48 + 0) with 48. change (48 + 1) with 49. change (48 + 2) with 50.
  change (48 + 5) with 53. change (48 + 7) with 55. change (48 + 10) with 58.
  change (48 + 12) with 60.
  rewrite !field_bit by lia.
  rewrite op1_src_switch, pc_update_switch, opcode_switch.
  destruct (Layout.op1_src _); [cbn [orErr bind]|reflexivity].
  destruct (Layout.pc_update _) as [pc|]; [cbn [orErr bind]|reflexivity].
  rewrite res_logic_switch.
  destruct (Layout.res_logic _ _); [cbn [orErr bind]|reflexivity].
  destruct (Layout.opcode _) as [op|]; [cbn [orErr bind]|reflexivity].
  rewrite ap_update_switch.
  destruct (Layout.ap_update _ _); [cbn [orErr bind]|reflexivity].
  unfold Layout.register, Layout.fp_update.
  destruct (Z.testbit e 48), (Z.testbit e 49); reflexivity.
Qed.

(** C5: for every 64-bit unsigned [e], decoding fails with [HighBitSetError]
    iff bit 63 of [e] is set; otherwise the decoder either returns the
    instruction the layout table reads off [e] -- offsets from bits 0-15,
    16-31 and 32-47 less the bias [2^15], registers from bits 48 and 49,
    op1_src, res_logic, pc_update, ap_update and opcode from their fields,
    fp_update from the opcode, size 2 iff op1_src is Imm and 1 otherwise --
    or the error the table gives for a field holding a value outside its
    enumeration. *)
Theorem decodeInstruction_layout (e : Z) :
  0 <= e < 2 ^ 64 ->
  (Instruction.decodeInstruction e = Err HighBitSetError <->
   Z.testbit e 63 = true) /\
  (Z.testbit e 63 = false ->
   match Instruction.decodeInstruction e with
   | Ok i => Layout.decodes e i
   | Err err => Layout.rejects e err
   | Throw _ => False
   end).
Proof.
  intros He. rewrite decodeInstruction_fields.
  destruct (Z.testbit e 63) eqn:Hb.
  { split; [tauto|discriminate]. }
  assert (H2 : forall lo, 0 <= Layout.field e lo 2 < 4)
    by (intros; apply field_bound; lia).
  unfold Layout.rejects.
  destruct (Layout.op1_src _) as [op1|] eqn:Hop1; cbn [orErr bind];
    [|split; [split; discriminate|auto 10]].
  destruct (Layout.pc_update _) as [pc|] eqn:Hpc; cbn [orErr bind];
    [|split; [split; discriminate|auto 10]].
  destruct (Layout.res_logic _ _) as [rl|] eqn:Hrl; cbn [orErr bind];
    [|apply res_logic_None in Hrl; [|apply H2];
      split; [split; discriminate|auto 10]].
  destruct (Layout.opcode _) as [op|] eqn:Hop; cbn [orErr bind];
    [|split; [split; discriminate|auto 10]].
  destruct (Layout.ap_update _ _) as [ap|] eqn:Hap; cbn [orErr bind];
    [|apply ap_update_None in Hap; [|apply H2];
      split; [split; discriminate|auto 10]].
  split; [split; discriminate|]. intros _.
  unfold Layout.decodes. cbn [Instruction.offDst Instruction.offOp0
    Instruction.offOp1 Instruction.dstReg Instruction.op0Reg
    Instruction.op1Src Instruction.resLogic Instruction.pcUpdate
    Instruction.apUpdate Instruction.fpUpdate Instruction.opcode].
  repeat (split; [assumption || reflexivity|]).
  apply (size_Imm (Instruction.mk _ _ _ _ _ op1 _ _ _ _ _)).
Qed.

Lemma decodeInstruction_layout_witness :
  Z.testbit 0x4011800080018000 63 = false /\
  Layout.decodes 0x4011800080018000
    (Instruction.mk 0 1 0 RegisterFlag.FP RegisterFlag.AP Op1Src.AP
       ResLogic.Op1 PcUpdate.Regular ApUpdate.Regular FpUpdate.Regular
       Opcode.AssertEq).
Proof.
  split; [reflexivity|].
  exact (proj2 (decodeInstruction_layout 0x4011800080018000 ltac:(lia))
           eq_refl).
Defined.

(** ** Operand resolution *)

Section VirtualMachineFacts.

Context {Relocatable MaybeRelocatable Mem : Type}.
Context {words : Words Relocatable MaybeRelocatable}.
Context {memory : MemoryOps Mem Relocatable MaybeRelocatable}.

(** Inversion of successful computations. *)
Lemma bindVM_Ok {A B} (c : VM Mem A) (k : A -> VM Mem B) m b m' :
  (c ≫= k) m = (Ok b, m') ->
  exists a m1, c m = (Ok a, m1) /\ k a m1 = (Ok b, m').
Proof.
  unfold mbind, VM_bind, bindVM.
  destruct (c m) as [[a| |] m1]; intros H; [eauto|discriminate..].
Qed.

Lemma lift_Ok {A} (r : Result A) (m m' : Mem) a :
  lift r m = (Ok a, m') -> r = Ok a /\ m' = m.
Proof. unfold lift. intros [= -> ->]. auto. Qed.

Lemma get_Ok (address : Relocatable) (m m' : Mem) v :
  get address m = (Ok v, m') -> v = memory_get m address /\ m' = m.
Proof. unfold get. intros [= <- <-]. auto. Qed.

Lemma ret_Ok {A} (a b : A) (m m' : Mem) :
  ret a m = (Ok b, m') -> b = a /\ m' = m.
Proof. unfold ret. intros [= <- <-]. auto. Qed.

Lemma insertIfDefined_Ok address value (m m' : Mem) u :
  insertIfDefined address value m = (Ok u, m') ->
  m' = match value with
       | Some v => snd (memory_insert m address v)
       | None => m
       end.
Proof.
  unfold insertIfDefined, insert, ret. destruct value; intros [= _ <-]; auto.
Qed.

Ltac invert_bind H :=
  let a := fresh "a" in
  let m := fresh "m" in
  let Hc := fresh "Hc" in
  apply bindVM_Ok in H; destruct H as (a & m & Hc & H).

(** C2 (amended): when operand resolution returns successfully, op0 of the
    returned operands is the word read at its address whenever that cell was
    filled; dst is the word read at its address whenever that cell was
    filled, and otherwise the deduced destination: fp for Call, res for
    AssertEq, undefined for the other opcodes.  A deduced destination that is
    defined was handed to [insert] at the destination address as the last
    memory operation. *)
Theorem computeOperands_defined (rc : RunContext.t Relocatable)
    (instruction : Instruction.t) (m m' : Mem)
    (operands : Operands.t MaybeRelocatable) :
  computeOperands rc instruction m = (Ok operands, m') ->
  Resolved rc instruction m m' operands.
Proof.
  intros H. unfold Resolved. unfold computeOperands in H.
  invert_bind H. apply lift_Ok in Hc as [Hdst ->]. rename a into dstAddr.
  invert_bind H. apply get_Ok in Hc as [-> ->].
  invert_bind H. apply lift_Ok in Hc as [Hop0 ->]. rename a into op0Addr.
  invert_bind H. apply get_Ok in Hc as [-> ->].
  invert_bind H. apply lift_Ok in Hc as [_ ->]. rename a into op1Addr.
  invert_bind H. apply get_Ok in Hc as [-> ->].
  invert_bind H. clear Hc. rename a into res1, m0 into m1.
  invert_bind H. clear Hc. rename a into res2, m0 into m2.
  invert_bind H. clear Hc. rename a into res, m0 into m3.
  invert_bind H. rename a into dst, m0 into m4.
  apply ret_Ok in H as [-> ->].
  exists dstAddr, op0Addr. cbn [Operands.op0 Operands.dst Operands.res].
  split; [exact Hdst|]. split; [exact Hop0|]. split; [auto|].
  destruct (memory_get m dstAddr) as [w|] eqn:Hget.
  - apply ret_Ok in Hc as [-> ->]. split; [auto|discriminate].
  - split; [discriminate|]. intros _.
    invert_bind Hc. apply lift_Ok in Hc0 as [Hded ->].
    invert_bind Hc. apply insertIfDefined_Ok in Hc0.
    apply ret_Ok in Hc as [-> ->].
    split.
    + unfold deduceDst in Hded.
      destruct (Instruction.opcode instruction); congruence.
    + intros d ->. eauto.
Qed.


(** [step] never returns: whatever the machine holds, it throws. *)
Lemma step_never_returns (vm : VirtualMachine) : exists x, step vm = Throw x.
Proof.
  unfold step.
  destruct (memory_get _ _) as [encodedInstruction|]; [|eauto].
  destruct (instanceofFelt encodedInstruction) as [felt|]; [|eauto].
  destruct (Felt.toUint64 felt); eauto.
Qed.

(** The AssertEq check rejects a destination that is not the very object
    held by res, whatever words the two objects hold. *)
Lemma opcodeAssertion_AssertEq_distinct {identity : Identity MaybeRelocatable}
    (rc : RunContext.t Relocatable) (instruction : Instruction.t)
    (operands : Operands.t MaybeRelocatable) (d r : MaybeRelocatable) :
  Instruction.opcode instruction = Opcode.AssertEq ->
  Operands.dst operands = Some d ->
  Operands.res operands = Some r ->
  same_object d r = false ->
  opcodeAssertion rc instruction operands = Err DiffAssertValuesError.
Proof.
  intros Hop Hd Hr Hsame. unfold opcodeAssertion, strict_eq.
  rewrite Hop, Hd, Hr, Hsame. reflexivity.
Qed.

(** Whenever res is still undefined after the deductions, [computeRes] is
    applied to op0 and op1 as they are; with res_logic Add or Mul and op0
    absent, that is a method call on [undefined]. *)
Lemma computeRes_absent_op0 (instruction : Instruction.t)
    (op1 : option MaybeRelocatable) :
  Instruction.resLogic instruction = ResLogic.Add \/
  Instruction.resLogic instruction = ResLogic.Mul ->
  computeRes instruction None op1 = Throw TypeError.
Proof. unfold computeRes. intros [-> | ->]; reflexivity. Qed.

End VirtualMachineFacts.

(** With the reads and the memory effect of [insert] fixed, the outcome and
    the final memory of operand resolution are the same whatever the
    write-backs return. *)
Lemma computeOperands_ignores_insert_result
    {Relocatable MaybeRelocatable Mem : Type}
    {words : Words Relocatable MaybeRelocatable}
    (read : Mem -> Relocatable -> option MaybeRelocatable)
    (write : Mem -> Relocatable -> MaybeRelocatable -> Mem)
    (returned returned' : Mem -> Relocatable -> MaybeRelocatable -> Result bool)
    (rc : RunContext.t Relocatable) (instruction : Instruction.t) (m : Mem) :
  computeOperands
    (memory := {| memory_get := read;
                  memory_insert := fun m a v =>
                    (returned m a v, write m a v) |})
    rc instruction m =
  computeOperands
    (memory := {| memory_get := read;
                  memory_insert := fun m a v =>
                    (returned' m a v, write m a v) |})
    rc instruction m.
Proof. reflexivity. Qed.

Section FailedWriteBack.

Context {Relocatable MaybeRelocatable Mem : Type}.
Context {words : Words Relocatable MaybeRelocatable}.
Context {memory : MemoryOps Mem Relocatable MaybeRelocatable}.

Ltac run_vm :=
  unfold computeOperands;
  cbv [mbind VM_bind bindVM lift get ret insertIfDefined insert].


End FailedWriteBack.


(** ** Runs on the words and the memory of the specification *)

(** C2 (as stated) fails: on a NoOp whose operand cells are all empty,
    resolution returns successfully with op0 and dst undefined. *)
Lemma computeOperands_noop_undefined :
  computeOperands (Run.registers (0, 0) (1, 0) (1, 0)) (Run.noop ResLogic.Op1)
    Run.blank =
  (Ok (Operands.mk None None None None), Run.blank).
Proof. reflexivity. Qed.

(** On a Call whose op0 cell is empty the return address is deduced and
    written to memory, but op0 of the returned operands stays undefined. *)
Example computeOperands_call_op0 :
  exists m',
    computeOperands (Run.registers (0, 0) (1, 0) (1, 0)) Run.call
      (SegmentedMemory.store Run.blank (0, 1) (Run.felt 5)) =
    (Ok (Operands.mk None (Some (Run.felt 5)) (Some (Run.felt 5))
           (Some (Word.Ptr (1, 0)))), m') /\
    SegmentedMemory.get m' (1, 0) = Some (Word.Ptr (0, 2)).
Proof. eexists. split; reflexivity. Qed.

Lemma computeOperands_defined_witness :
  Resolved (Run.registers (0, 0) (1, 1) (1, 0)) (Run.assertEq ResLogic.Op1)
    (SegmentedMemory.store Run.blank (1, 1) (Run.felt 7))
    (SegmentedMemory.store
       (SegmentedMemory.store Run.blank (1, 1) (Run.felt 7)) (1, 0)
       (Run.felt 7))
    (Operands.mk None (Some (Run.felt 7)) (Some (Run.felt 7))
       (Some (Run.felt 7))).
Proof.
  apply (computeOperands_defined (Run.registers (0, 0) (1, 1) (1, 0))
           (Run.assertEq ResLogic.Op1)).
  reflexivity.
Defined.

(** C3: in the scenario the instruction is fetched and decoded, and then
    [step] throws: it does not return, writes nothing and moves no register. *)
Theorem step_scenario_throws :
  Instruction.decodeInstruction Run.encoded = Ok (Run.assertEq ResLogic.Op1) /\
  step Run.scenario = Throw NotImplemented.
Proof. split; reflexivity. Qed.

(** C4: the destination checks of the opcode assertion compare object
    identities: two distinct objects that hold equal words are rejected. *)
Theorem opcodeAssertion_compares_identity :
  Word.eqb (Heap.word Run.seven) (Heap.word Run.seven') = true /\
  opcodeAssertion (words := Heap_Words 20) Run.objects
    (Run.assertEq ResLogic.Op1)
    (Operands.mk None (Some Run.seven') (Some Run.seven') (Some Run.seven)) =
    Err DiffAssertValuesError /\
  Word.eqb (Heap.word (RunContext.getFp Run.objects)) (Heap.word Run.fpCopy)
    = true /\
  opcodeAssertion (words := Heap_Words 20) Run.objects Run.call
    (Operands.mk (Some Run.returnPc) None None (Some Run.fpCopy)) =
    Err InvalidDstOperand.
Proof. repeat split. Qed.

(** C6: with res_logic Add and the cells of op0 and op1 empty, nothing is
    deduced and [computeRes] is applied to the absent operands: the addition
    is called on [undefined]. *)
Theorem computeOperands_computeRes_absent :
  SegmentedMemory.get Run.blank (1, 1) = None /\
  SegmentedMemory.get Run.blank (1, 2) = None /\
  computeOperands (Run.registers (0, 0) (1, 0) (1, 0)) (Run.noop ResLogic.Add)
    Run.blank =
  (Throw TypeError, Run.blank).
Proof. repeat split. Qed.



(** Write-backs that fail while the resolution returns successfully: on the
    Call both op0 and dst are deduced for the cell [ap + 0], and the second
    write-back meets the return address written by the first; with a single
    segment the destination [fp + 0] of the AssertEq lies in no segment. *)
Example computeOperands_failed_write_back :
  SegmentedMemory.insert
    (SegmentedMemory.store (SegmentedMemory.store Run.blank (0, 1) (Run.felt 5))
       (1, 0) (Word.Ptr (0, 2)))
    (1, 0) (Word.Ptr (1, 0)) =
    (Err WriteOnceError,
     SegmentedMemory.store (SegmentedMemory.store Run.blank (0, 1) (Run.felt 5))
       (1, 0) (Word.Ptr (0, 2))) /\
  computeOperands (Run.registers (0, 0) (1, 0) (1, 0)) Run.call
    (SegmentedMemory.store Run.blank (0, 1) (Run.felt 5)) =
    (Ok (Operands.mk None (Some (Run.felt 5)) (Some (Run.felt 5))
           (Some (Word.Ptr (1, 0)))),
     SegmentedMemory.store (SegmentedMemory.store Run.blank (0, 1) (Run.felt 5))
       (1, 0) (Word.Ptr (0, 2))) /\
  SegmentedMemory.insert
    (SegmentedMemory.store (SegmentedMemory.empty 1) (0, 1) (Run.felt 7))
    (1, 0) (Run.felt 7) =
    (Err SegmentError,
     SegmentedMemory.store (SegmentedMemory.empty 1) (0, 1) (Run.felt 7)) /\
  computeOperands (Run.registers (0, 0) (0, 1) (1, 0))
    (Run.assertEq ResLogic.Op1)
    (SegmentedMemory.store (SegmentedMemory.empty 1) (0, 1) (Run.felt 7)) =
    (Ok (Operands.mk None (Some (Run.felt 7)) (Some (Run.felt 7))
           (Some (Run.felt 7))),
     SegmentedMemory.store (SegmentedMemory.empty 1) (0, 1) (Run.felt 7)).
Proof. repeat split. Qed.

(** * Further properties *)

(** ** Field elements *)

Ltac felt_range :=
  unfold Felt_valid, Felt_reduced, Felt.PRIME; cbn [Felt.inner]; lia.

Lemma PRIME_pos : 0 < Felt.PRIME.
Proof. reflexivity. Qed.

Lemma Felt_new_Ok (i : Z) :
  0 <= i <= Felt.PRIME -> Felt.new i = Ok (Felt.mk i).
Proof.
  intros Hi. unfold Felt.new.
  destruct (Z.ltb_spec i 0); [lia|].
  destruct (i >? Felt.PRIME) eqn:E; [lia|]. reflexivity.
Qed.

(** [add] on two field elements the constructor accepts never throws and
    yields the sum reduced modulo the prime. *)
Theorem Felt_add_reduces (a b : Felt.t) :
  Felt_valid a -> Felt_valid b ->
  Felt.add a b = Ok (Felt.mk ((Felt.inner a + Felt.inner b) mod Felt.PRIME)) /\
  Felt_reduced (Felt.mk ((Felt.inner a + Felt.inner b) mod Felt.PRIME)).
Proof.
  intros Ha Hb. unfold Felt_valid, Felt_reduced in *. cbn [Felt.inner].
  pose proof PRIME_pos as Hp.
  assert (Hm := Z.mod_pos_bound (Felt.inner a + Felt.inner b) Felt.PRIME Hp).
  split; [|exact Hm].
  unfold Felt.add. rewrite Z.rem_mod_nonneg by lia.
  apply Felt_new_Ok. lia.
Qed.

Lemma Felt_add_reduces_witness :
  Felt.add (Felt.mk (Felt.PRIME - 1)) (Felt.mk 2) = Ok (Felt.mk 1).
Proof.
  exact (proj1 (Felt_add_reduces (Felt.mk (Felt.PRIME - 1)) (Felt.mk 2)
                  ltac:(felt_range)
                  ltac:(felt_range))).
Defined.

(** [sub] on two field elements the constructor accepts never throws; the
    result is congruent to the difference and lies in [[0, PRIME]], and it is
    reduced except for [PRIME - 0], which is returned as [PRIME]. *)
Theorem Felt_sub_wraps (a b : Felt.t) :
  Felt_valid a -> Felt_valid b ->
  exists r, Felt.sub a b = Ok r /\ Felt_valid r /\
    Felt.inner r mod Felt.PRIME =
      (Felt.inner a - Felt.inner b) mod Felt.PRIME /\
    (Felt_reduced r <->
     ~ (Felt.inner a = Felt.PRIME /\ Felt.inner b = 0)).
Proof.
  intros Ha Hb. unfold Felt_valid, Felt_reduced in *.
  pose proof PRIME_pos as Hp. unfold Felt.sub. cbv zeta.
  destruct (Z.ltb_spec (Felt.inner a - Felt.inner b) 0) as [Hn|Hn].
  - eexists. split; [apply Felt_new_Ok; lia|]. cbn [Felt.inner].
    split; [lia|]. split; [|lia].
    rewrite <- (Z.mod_add (Felt.inner a - Felt.inner b) 1 Felt.PRIME) by lia.
    f_equal; lia.
  - eexists. split; [apply Felt_new_Ok; lia|]. cbn [Felt.inner].
    split; [lia|]. split; [reflexivity|lia].
Qed.

Lemma Felt_sub_wraps_witness :
  exists r, Felt.sub (Felt.mk 2) (Felt.mk 5) = Ok r /\ Felt_valid r /\
    Felt.inner r mod Felt.PRIME = (2 - 5) mod Felt.PRIME /\
    (Felt_reduced r <-> ~ (2 = Felt.PRIME /\ 5 = 0)).
Proof.
  exact (Felt_sub_wraps (Felt.mk 2) (Felt.mk 5)
           ltac:(felt_range)
           ltac:(felt_range)).
Defined.

(** On reduced field elements [sub] and [add] undo each other:
    [(a - b) + b = a] and [(a + b) - b = a]. *)
Theorem Felt_sub_add_round_trip (a b : Felt.t) :
  Felt_reduced a -> Felt_reduced b ->
  bind (Felt.sub a b) (fun d => Felt.add d b) = Ok a /\
  bind (Felt.add a b) (fun s => Felt.sub s b) = Ok a.
Proof.
  intros Ha Hb. unfold Felt_reduced in *. destruct a as [x], b as [y].
  cbn [Felt.inner] in *. pose proof PRIME_pos as Hp. split.
  - unfold Felt.sub. cbv zeta. cbn [Felt.inner].
    destruct (Z.ltb_spec (x - y) 0) as [Hn|Hn].
    + rewrite Felt_new_Ok by lia. cbn [bind]. unfold Felt.add. cbn [Felt.inner].
      rewrite Z.rem_mod_nonneg by lia.
      replace (x - y + Felt.PRIME + y) with (x + 1 * Felt.PRIME) by lia.
      rewrite Z.mod_add, Z.mod_small by lia. apply Felt_new_Ok. lia.
    + rewrite Felt_new_Ok by lia. cbn [bind]. unfold Felt.add. cbn [Felt.inner].
      rewrite Z.rem_mod_nonneg by lia.
      replace (x - y + y) with x by lia.
      rewrite Z.mod_small by lia. apply Felt_new_Ok. lia.
  - unfold Felt.add. cbn [Felt.inner]. rewrite Z.rem_mod_nonneg by lia.
    assert (Hm := Z.mod_pos_bound (x + y) Felt.PRIME Hp).
    rewrite Felt_new_Ok by lia. cbn [bind]. unfold Felt.sub. cbv zeta.
    cbn [Felt.inner].
    destruct (Z.ltb_spec (x + y) Felt.PRIME) as [Hs|Hs].
    + rewrite Z.mod_small by lia.
      destruct (Z.ltb_spec (x + y - y) 0); [lia|].
      replace (x + y - y) with x by lia. apply Felt_new_Ok. lia.
    + assert (Hxy : (x + y) mod Felt.PRIME = x + y - Felt.PRIME).
      { replace (x + y) with (x + y - Felt.PRIME + 1 * Felt.PRIME) at 1 by lia.
        rewrite Z.mod_add, Z.mod_small by lia. reflexivity. }
      rewrite Hxy.
      destruct (Z.ltb_spec (x + y - Felt.PRIME - y) 0); [|lia].
      replace (x + y - Felt.PRIME - y + Felt.PRIME) with x by lia.
      apply Felt_new_Ok. lia.
Qed.

Lemma Felt_sub_add_round_trip_witness :
  bind (Felt.sub (Felt.mk 2) (Felt.mk 5)) (fun d => Felt.add d (Felt.mk 5)) =
    Ok (Felt.mk 2) /\
  bind (Felt.add (Felt.mk 2) (Felt.mk 5)) (fun s => Felt.sub s (Felt.mk 5)) =
    Ok (Felt.mk 2).
Proof.
  exact (Felt_sub_add_round_trip (Felt.mk 2) (Felt.mk 5)
           ltac:(felt_range)
           ltac:(felt_range)).
Defined.

(** The constructor accepts [PRIME] itself; that element is neutral for
    [add] like 0, yet [eq] tells it apart from 0. *)
Theorem Felt_PRIME_second_zero (x : Felt.t) :
  Felt_reduced x ->
  Felt.new Felt.PRIME = Ok (Felt.mk Felt.PRIME) /\
  Felt.add x (Felt.mk Felt.PRIME) = Ok x /\
  Felt.add x (Felt.mk 0) = Ok x /\
  Felt.eq (Felt.mk Felt.PRIME) (Felt.mk 0) = false.
Proof.
  intros Hx. unfold Felt_reduced in Hx. destruct x as [x].
  cbn [Felt.inner] in *.
  pose proof PRIME_pos as Hp.
  split; [reflexivity|]. split; [|split; [|reflexivity]].
  - unfold Felt.add. cbn [Felt.inner]. rewrite Z.rem_mod_nonneg by lia.
    replace (x + Felt.PRIME) with (x + 1 * Felt.PRIME) by lia.
    rewrite Z.mod_add, Z.mod_small by lia. apply Felt_new_Ok. lia.
  - unfold Felt.add. cbn [Felt.inner]. rewrite Z.rem_mod_nonneg by lia.
    rewrite Z.add_0_r, Z.mod_small by lia. apply Felt_new_Ok. lia.
Qed.

Lemma Felt_PRIME_second_zero_witness :
  Felt.new Felt.PRIME = Ok (Felt.mk Felt.PRIME) /\
  Felt.add (Felt.mk 7) (Felt.mk Felt.PRIME) = Ok (Felt.mk 7) /\
  Felt.add (Felt.mk 7) (Felt.mk 0) = Ok (Felt.mk 7) /\
  Felt.eq (Felt.mk Felt.PRIME) (Felt.mk 0) = false.
Proof.
  exact (Felt_PRIME_second_zero (Felt.mk 7)
           ltac:(felt_range)).
Defined.

(** ** Write-once memory *)

Section MemoryMore.

Context {V : Type}.

(** A successful [insert] wrote an empty cell: [get] at the address failed
    before and yields the inserted word afterwards, and the number of
    segments is unchanged. *)
Theorem insert_get_round_trip (m m1 : Memory.t V) A W :
  Memory.insert m A W = (Ok true, m1) ->
  Memory.get m A = Err UnknownAddressError /\
  Memory.get m1 A = Ok W /\
  Memory.getNumSegments m1 = Memory.getNumSegments m.
Proof.
  unfold Memory.insert, Memory.get, Memory.getNumSegments.
  destruct (Memory.segmentIndex A >=? Memory.numSegments m); [discriminate|].
  destruct (Memory.data m !! Memory.ident A) eqn:HA; [discriminate|].
  intros [= <-]. cbn. rewrite lookup_insert_eq. auto.
Qed.

(** [insert] fails with [SegmentError] exactly when the segment does not
    exist, whether the cell is filled or not, and with [WriteOnceError]
    exactly when the segment exists and the cell is filled; a failed
    [insert] leaves the memory as it was. *)
Theorem insert_failure_unchanged (m : Memory.t V) A W :
  (Memory.numSegments m <= Memory.segmentIndex A ->
   Memory.insert m A W = (Err SegmentError, m)) /\
  (Memory.segmentIndex A < Memory.numSegments m ->
   forall w, Memory.get m A = Ok w ->
   Memory.insert m A W = (Err WriteOnceError, m)) /\
  (forall e, fst (Memory.insert m A W) = Err e ->
   snd (Memory.insert m A W) = m /\
   ((e = SegmentError /\ Memory.numSegments m <= Memory.segmentIndex A) \/
    (e = WriteOnceError /\ Memory.segmentIndex A < Memory.numSegments m /\
     exists w, Memory.get m A = Ok w))).
Proof.
  unfold Memory.insert, Memory.get.
  destruct (Z.geb_spec (Memory.segmentIndex A) (Memory.numSegments m)).
  - split; [reflexivity|]. split; [lia|].
    cbn. intros e [= <-]. auto.
  - split; [lia|].
    destruct (Memory.data m !! Memory.ident A) as [w|].
    + split; [reflexivity|]. cbn. intros e [= <-].
      split; [reflexivity|]. right. eauto.
    + split; [discriminate|]. cbn. discriminate.
Qed.

(** A successful [insert] changes what [get] yields for the address object
    written only: every other [Relocatable] object reads as before, also one
    with the same segment index and offset. *)
Theorem insert_other_object (m m1 : Memory.t V) A B W :
  Memory.insert m A W = (Ok true, m1) ->
  Memory.ident B <> Memory.ident A ->
  Memory.get m1 B = Memory.get m B.
Proof.
  unfold Memory.insert, Memory.get.
  destruct (Memory.segmentIndex A >=? Memory.numSegments m); [discriminate|].
  destruct (Memory.data m !! Memory.ident A); [discriminate|].
  intros [= <-] Hne. cbn. rewrite lookup_insert_ne by congruence. reflexivity.
Qed.

Lemma numSegments_run (ops : list Memory.op) : forall m : Memory.t V,
  Memory.numSegments (Memory.run ops m) = Memory.numSegments m + increments ops.
Proof.
  induction ops as [|o ops IH]; intros m; [cbn; lia|].
  change (Memory.run (o :: ops) m) with (Memory.run ops (Memory.apply m o)).
  rewrite IH. destruct o as [B X|]; cbn [Memory.apply increments].
  - unfold Memory.insert.
    destruct (Memory.segmentIndex B >=? Memory.numSegments m); [reflexivity|].
    destruct (Memory.data m !! Memory.ident B); reflexivity.
  - unfold Memory.incrementNumSegments. cbn [Memory.numSegments]. lia.
Qed.

(** Starting from [new Memory()], the number of segments is the number of
    [incrementNumSegments] performed, whatever was inserted in between, and
    an [insert] can only succeed at a segment index below it. *)
Theorem segments_counted (ops : list Memory.op) A W :
  Memory.getNumSegments (Memory.run ops (Memory.new : Memory.t V)) =
    increments ops /\
  (fst (Memory.insert (Memory.run ops Memory.new) A W) = Ok true ->
   Memory.segmentIndex A < increments ops).
Proof.
  unfold Memory.getNumSegments. rewrite numSegments_run.
  cbn [Memory.new Memory.numSegments].
  split; [lia|]. unfold Memory.insert. rewrite numSegments_run.
  cbn [Memory.new Memory.numSegments].
  destruct (Z.geb_spec (Memory.segmentIndex A) (0 + increments ops));
    [discriminate|lia].
Qed.

End MemoryMore.

Lemma insert_get_round_trip_witness :
  Memory.get oneSegment address00 = Err UnknownAddressError /\
  Memory.get oneCell address00 = Ok (Felt.mk 10) /\
  Memory.getNumSegments oneCell = Memory.getNumSegments oneSegment.
Proof.
  exact (insert_get_round_trip oneSegment oneCell address00 (Felt.mk 10)
           eq_refl).
Defined.

Lemma insert_failure_unchanged_witness :
  (* the segment 1 of a new memory does not exist *)
  Memory.insert Memory.new (Memory.mkRelocatable 3 1 0) (Felt.mk 10) =
    (Err SegmentError, Memory.new) /\
  (* the segment 1 does not exist, the cell of the object is filled *)
  Memory.insert oneCell (Memory.mkRelocatable 1 1 0) (Felt.mk 3) =
    (Err SegmentError, oneCell) /\
  (* the segment exists, the cell is filled *)
  Memory.insert oneCell address00 (Felt.mk 3) = (Err WriteOnceError, oneCell) /\
  snd (Memory.insert oneCell address00 (Felt.mk 3)) = oneCell /\
  ((WriteOnceError = SegmentError /\
    Memory.numSegments oneCell <= Memory.segmentIndex address00) \/
   (WriteOnceError = WriteOnceError /\
    Memory.segmentIndex address00 < Memory.numSegments oneCell /\
    exists w, Memory.get oneCell address00 = Ok w)).
Proof.
  split; [|split; [|split]].
  - apply (proj1 (insert_failure_unchanged Memory.new
                    (Memory.mkRelocatable 3 1 0) (Felt.mk 10))).
    vm_compute. discriminate.
  - apply (proj1 (insert_failure_unchanged oneCell
                    (Memory.mkRelocatable 1 1 0) (Felt.mk 3))).
    vm_compute. discriminate.
  - apply (proj1 (proj2 (insert_failure_unchanged oneCell address00
                           (Felt.mk 3))) ltac:(reflexivity) (Felt.mk 10)).
    reflexivity.
  - apply (proj2 (proj2 (insert_failure_unchanged oneCell address00
                           (Felt.mk 3))) WriteOnceError).
    reflexivity.
Defined.

Lemma insert_other_object_witness :
  Memory.get oneCell address00' = Memory.get oneSegment address00' /\
  Memory.get oneCell address00' = Err UnknownAddressError /\
  Memory.segmentIndex address00' = Memory.segmentIndex address00 /\
  Memory.offset address00' = Memory.offset address00.
Proof.
  split; [|repeat split].
  apply (insert_other_object oneSegment oneCell address00 address00'
           (Felt.mk 10) eq_refl).
  discriminate.
Defined.

Lemma segments_counted_witness :
  Memory.segmentIndex address00 <
    increments [Memory.IncrementNumSegments : @Memory.op Felt.t].
Proof.
  apply (proj2 (segments_counted [Memory.IncrementNumSegments] address00
                  (Felt.mk 10))).
  reflexivity.
Defined.

(** ** Instruction decoding *)

(** A successful decoding has read every field as the layout table says. *)
Lemma decodeInstruction_Ok (e : Z) (i : Instruction.t) :
  Instruction.decodeInstruction e = Ok i ->
  Z.testbit e 63 = false /\
  Instruction.offDst i = Layout.field e 0 16 - 2 ^ 15 /\
  Instruction.offOp0 i = Layout.field e 16 16 - 2 ^ 15 /\
  Instruction.offOp1 i = Layout.field e 32 16 - 2 ^ 15 /\
  Instruction.dstReg i = Layout.register (Z.testbit e 48) /\
  Instruction.op0Reg i = Layout.register (Z.testbit e 49) /\
  Layout.op1_src (Layout.field e 50 3) = Some (Instruction.op1Src i) /\
  Layout.pc_update (Layout.field e 55 3) = Some (Instruction.pcUpdate i) /\
  Layout.res_logic (Layout.field e 53 2) (Instruction.pcUpdate i) =
    Some (Instruction.resLogic i) /\
  Layout.opcode (Layout.field e 60 3) = Some (Instruction.opcode i) /\
  Layout.ap_update (Layout.field e 58 2) (Instruction.opcode i) =
    Some (Instruction.apUpdate i) /\
  Instruction.fpUpdate i = Layout.fp_update (Instruction.opcode i).
Proof.
  rewrite decodeInstruction_fields.
  destruct (Z.testbit e 63); [discriminate|].
  destruct (Layout.op1_src _) as [op1|]; [|discriminate].
  destruct (Layout.pc_update _) as [pc|]; [|discriminate]. cbn [orErr bind].
  destruct (Layout.res_logic _ _) as [rl|] eqn:Hrl; [|discriminate].
  destruct (Layout.opcode _) as [op|]; [|discriminate]. cbn [orErr bind].
  destruct (Layout.ap_update _ _) as [ap|] eqn:Hap; [|discriminate].
  cbn [orErr bind]. intros [= <-]. cbn. repeat split; assumption.
Qed.

Lemma field_split (e lo len hi : Z) :
  0 <= lo -> 0 <= len -> hi = lo + len ->
  e / 2 ^ lo = Layout.field e lo len + 2 ^ len * (e / 2 ^ hi).
Proof.
  intros Hlo Hlen ->. unfold Layout.field.
  rewrite Z.pow_add_r, <- Z.div_div by lia.
  rewrite Z.add_comm. apply Z.div_mod. lia.
Qed.

Lemma field_bit_b2z (e n : Z) :
  0 <= n -> Layout.field e n 1 = Z.b2z (Z.testbit e n).
Proof.
  intros Hn. unfold Layout.field. rewrite Z.testbit_spec' by lia. reflexivity.
Qed.

(** An unsigned 64-bit word whose high bit is clear is the sum of its
    fields. *)
Lemma word_fields (e : Z) :
  0 <= e < 2 ^ 64 -> Z.testbit e 63 = false ->
  e = Layout.field e 0 16
      + 2 ^ 16 * Layout.field e 16 16
      + 2 ^ 32 * Layout.field e 32 16
      + 2 ^ 48 * Z.b2z (Z.testbit e 48)
      + 2 ^ 49 * Z.b2z (Z.testbit e 49)
      + 2 ^ 50 * Layout.field e 50 3
      + 2 ^ 53 * Layout.field e 53 2
      + 2 ^ 55 * Layout.field e 55 3
      + 2 ^ 58 * Layout.field e 58 2
      + 2 ^ 60 * Layout.field e 60 3.
Proof.
  intros He Hb.
  assert (H63 : e / 2 ^ 63 = 0).
  { pose proof (field_split e 63 1 64 ltac:(lia) ltac:(lia) eq_refl) as H.
    rewrite field_bit_b2z, Hb in H by lia.
    rewrite (Z.div_small e (2 ^ 64)) in H by lia. exact H. }
  rewrite <- !field_bit_b2z by lia.
  pose proof (field_split e 0 16 16 ltac:(lia) ltac:(lia) eq_refl) as H0.
  pose proof (field_split e 16 16 32 ltac:(lia) ltac:(lia) eq_refl) as H16.
  pose proof (field_split e 32 16 48 ltac:(lia) ltac:(lia) eq_refl) as H32.
  pose proof (field_split e 48 1 49 ltac:(lia) ltac:(lia) eq_refl) as H48.
  pose proof (field_split e 49 1 50 ltac:(lia) ltac:(lia) eq_refl) as H49.
  pose proof (field_split e 50 3 53 ltac:(lia) ltac:(lia) eq_refl) as H50.
  pose proof (field_split e 53 2 55 ltac:(lia) ltac:(lia) eq_refl) as H53.
  pose proof (field_split e 55 3 58 ltac:(lia) ltac:(lia) eq_refl) as H55.
  pose proof (field_split e 58 2 60 ltac:(lia) ltac:(lia) eq_refl) as H58.
  pose proof (field_split e 60 3 63 ltac:(lia) ltac:(lia) eq_refl) as H60.
  rewrite Z.pow_0_r, Z.div_1_r in H0.
  generalize dependent (e / 2 ^ 16). generalize dependent (e / 2 ^ 32).
  generalize dependent (e / 2 ^ 48). generalize dependent (e / 2 ^ 49).
  generalize dependent (e / 2 ^ 50). generalize dependent (e / 2 ^ 53).
  generalize dependent (e / 2 ^ 55). generalize dependent (e / 2 ^ 58).
  generalize dependent (e / 2 ^ 60). generalize dependent (e / 2 ^ 63).
  intros. lia.
Qed.

Ltac table_cases :=
  repeat match goal with
         | H : context [match ?x with _ => _ end] |- _ =>
             destruct x; try discriminate H
         end.

Lemma op1_src_code n x : Layout.op1_src n = Some x -> Encoding.op1_src x = n.
Proof.
  unfold Layout.op1_src. intros H.
  table_cases; injection H as <-; reflexivity.
Qed.

Lemma pc_update_code n x :
  Layout.pc_update n = Some x -> Encoding.pc_update x = n.
Proof.
  unfold Layout.pc_update. intros H.
  table_cases; injection H as <-; reflexivity.
Qed.

Lemma opcode_code n x : Layout.opcode n = Some x -> Encoding.opcode x = n.
Proof.
  unfold Layout.opcode. intros H.
  table_cases; injection H as <-; reflexivity.
Qed.

Lemma res_logic_code n pc x :
  Layout.res_logic n pc = Some x -> Encoding.res_logic x = n.
Proof.
  unfold Layout.res_logic. intros H.
  destruct pc; table_cases; injection H as <-; reflexivity.
Qed.

Lemma ap_update_code n op x :
  Layout.ap_update n op = Some x -> Encoding.ap_update x = n.
Proof.
  unfold Layout.ap_update. intros H.
  destruct op; table_cases; injection H as <-; reflexivity.
Qed.

Lemma register_code b : Encoding.register (Layout.register b) = Z.b2z b.
Proof. destruct b; reflexivity. Qed.

Lemma encode_decodeInstruction (e : Z) (i : Instruction.t) :
  0 <= e < 2 ^ 64 ->
  Instruction.decodeInstruction e = Ok i -> Encoding.encode i = e.
Proof.
  intros He H. apply decodeInstruction_Ok in H.
  destruct H as
    (Hb & Hd & H0 & H1 & Hrd & Hr0 & Hs & Hpc & Hrl & Hop & Hap & _).
  etransitivity; [|symmetry; apply (word_fields e He Hb)].
  unfold Encoding.encode.
  rewrite Hd, H0, H1, Hrd, Hr0, !register_code.
  rewrite (op1_src_code _ _ Hs), (pc_update_code _ _ Hpc),
    (res_logic_code _ _ _ Hrl), (opcode_code _ _ Hop),
    (ap_update_code _ _ _ Hap).
  lia.
Qed.

(** Decoding loses nothing: two unsigned 64-bit words that decode to the
    same instruction are the same word. *)
Theorem decodeInstruction_injective (e1 e2 : Z) (i : Instruction.t) :
  0 <= e1 < 2 ^ 64 -> 0 <= e2 < 2 ^ 64 ->
  Instruction.decodeInstruction e1 = Ok i ->
  Instruction.decodeInstruction e2 = Ok i ->
  e1 = e2.
Proof.
  intros He1 He2 H1 H2.
  rewrite <- (encode_decodeInstruction e1 i He1 H1).
  apply (encode_decodeInstruction e2 i He2 H2).
Qed.

Lemma decodeInstruction_injective_witness :
  Run.encoded = 0x4011800080018000.
Proof.
  apply (decodeInstruction_injective Run.encoded 0x4011800080018000
           (Run.assertEq ResLogic.Op1));
    (unfold Run.encoded; lia) || reflexivity.
Defined.

(** With the high bit clear the fields are checked in the order op1_src,
    pc_update, res_logic, opcode, ap_update, and the first one holding a
    value outside its enumeration decides the error. *)
Theorem decodeInstruction_error_order (e : Z) :
  Z.testbit e 63 = false ->
  (Layout.op1_src (Layout.field e 50 3) = None ->
   Instruction.decodeInstruction e = Err InvalidOp1Src) /\
  (is_Some (Layout.op1_src (Layout.field e 50 3)) ->
   Layout.pc_update (Layout.field e 55 3) = None ->
   Instruction.decodeInstruction e = Err InvalidPcUpdate) /\
  (is_Some (Layout.op1_src (Layout.field e 50 3)) ->
   is_Some (Layout.pc_update (Layout.field e 55 3)) ->
   Layout.field e 53 2 = 3 ->
   Instruction.decodeInstruction e = Err InvalidResultLogic) /\
  (is_Some (Layout.op1_src (Layout.field e 50 3)) ->
   is_Some (Layout.pc_update (Layout.field e 55 3)) ->
   Layout.field e 53 2 <> 3 ->
   Layout.opcode (Layout.field e 60 3) = None ->
   Instruction.decodeInstruction e = Err InvalidOpcode) /\
  (is_Some (Layout.op1_src (Layout.field e 50 3)) ->
   is_Some (Layout.pc_update (Layout.field e 55 3)) ->
   Layout.field e 53 2 <> 3 ->
   is_Some (Layout.opcode (Layout.field e 60 3)) ->
   Layout.field e 58 2 = 3 ->
   Instruction.decodeInstruction e = Err InvalidApUpdate).
Proof.
  intros Hb. rewrite decodeInstruction_fields, Hb.
  assert (H2 : forall lo, 0 <= Layout.field e lo 2 < 4)
    by (intros; apply field_bound; lia).
  repeat split.
  - intros ->. reflexivity.
  - intros [x ->] ->. reflexivity.
  - intros [x ->] [pc ->] ->. reflexivity.
  - intros [x ->] [pc ->] Hrl ->. cbn [orErr bind].
    destruct (Layout.res_logic _ _) eqn:E; [reflexivity|].
    apply res_logic_None in E; [contradiction|apply H2].
  - intros [x ->] [pc ->] Hrl [op ->] ->. cbn [orErr bind].
    destruct (Layout.res_logic _ _) eqn:E; [reflexivity|].
    apply res_logic_None in E; [contradiction|apply H2].
Qed.

Lemma decodeInstruction_error_order_witness :
  Layout.field 0x01e0800080008000 53 2 = 3 /\
  Instruction.decodeInstruction 0x01e0800080008000 = Err InvalidPcUpdate /\
  Instruction.decodeInstruction 0x7fff800080008000 = Err InvalidOp1Src.
Proof.
  split; [reflexivity|]. split.
  - apply (proj1 (proj2 (decodeInstruction_error_order 0x01e0800080008000
                           eq_refl))); [eexists|]; reflexivity.
  - apply (proj1 (decodeInstruction_error_order 0x7fff800080008000 eq_refl)).
    reflexivity.
Defined.

(** In a decoded instruction res_logic is Unconstrained only with
    pc_update Jnz and never Op1 with it, ap_update is Add2 only for Call and
    never Regular for it, and fp_update is ApPlus2 exactly for Call and Dst
    exactly for Ret. *)
Theorem decodeInstruction_derived_fields (e : Z) (i : Instruction.t) :
  Instruction.decodeInstruction e = Ok i ->
  (Instruction.resLogic i = ResLogic.Unconstrained ->
   Instruction.pcUpdate i = PcUpdate.Jnz) /\
  (Instruction.pcUpdate i = PcUpdate.Jnz ->
   Instruction.resLogic i <> ResLogic.Op1) /\
  (Instruction.apUpdate i = ApUpdate.Add2 ->
   Instruction.opcode i = Opcode.Call) /\
  (Instruction.opcode i = Opcode.Call ->
   Instruction.apUpdate i <> ApUpdate.Regular) /\
  (Instruction.fpUpdate i = FpUpdate.ApPlus2 <->
   Instruction.opcode i = Opcode.Call) /\
  (Instruction.fpUpdate i = FpUpdate.Dst <->
   Instruction.opcode i = Opcode.Ret).
Proof.
  intros H. apply decodeInstruction_Ok in H.
  destruct H as (_ & _ & _ & _ & _ & _ & _ & _ & Hrl & _ & Hap & Hfp).
  rewrite Hfp. unfold Layout.res_logic in Hrl. unfold Layout.ap_update in Hap.
  destruct (Instruction.pcUpdate i), (Instruction.opcode i);
    repeat match goal with
           | H : context [match ?x with _ => _ end] |- _ =>
               is_var x; destruct x; try discriminate H
           | H : context [match Layout.field ?a ?b ?c with _ => _ end] |- _ =>
               destruct (Layout.field a b c); try discriminate H
           end;
    try (injection Hrl as <-); try (injection Hap as <-); cbn;
    repeat split; try congruence.
Qed.

Lemma decodeInstruction_derived_fields_witness :
  (* a conditional jump: res_logic is Unconstrained, not Op1 *)
  (Instruction.decodeInstruction RunMore.jnzEncoded = Ok RunMore.jnz /\
   Instruction.resLogic RunMore.jnz = ResLogic.Unconstrained /\
   Instruction.pcUpdate RunMore.jnz = PcUpdate.Jnz /\
   Instruction.resLogic RunMore.jnz <> ResLogic.Op1) /\
  (* a call: ap_update is Add2, not Regular, and fp_update is ApPlus2 *)
  (Instruction.decodeInstruction RunMore.callEncoded = Ok Run.call /\
   Instruction.apUpdate Run.call = ApUpdate.Add2 /\
   Instruction.opcode Run.call = Opcode.Call /\
   Instruction.apUpdate Run.call <> ApUpdate.Regular /\
   Instruction.fpUpdate Run.call = FpUpdate.ApPlus2) /\
  (* a return: fp_update is Dst *)
  (Instruction.decodeInstruction RunMore.retEncoded = Ok RunMore.retInstruction /\
   Instruction.opcode RunMore.retInstruction = Opcode.Ret /\
   Instruction.fpUpdate RunMore.retInstruction = FpUpdate.Dst).
Proof.
  pose proof (decodeInstruction_derived_fields RunMore.jnzEncoded RunMore.jnz
                eq_refl) as (J1 & J2 & _).
  pose proof (decodeInstruction_derived_fields RunMore.callEncoded Run.call
                eq_refl) as (_ & _ & C3 & C4 & C5 & _).
  pose proof (decodeInstruction_derived_fields RunMore.retEncoded RunMore.retInstruction
                eq_refl) as (_ & _ & _ & _ & _ & R6).
  split; [|split].
  - split; [reflexivity|]. split; [reflexivity|].
    split; [exact (J1 eq_refl)|exact (J2 (J1 eq_refl))].
  - split; [reflexivity|]. split; [reflexivity|].
    split; [exact (C3 eq_refl)|].
    split; [exact (C4 (C3 eq_refl))|exact (proj2 C5 (C3 eq_refl))].
  - split; [reflexivity|]. split; [reflexivity|].
    exact (proj2 R6 eq_refl).
Defined.

(** The three offsets of a decoded instruction are signed 16-bit
    integers. *)
Theorem decodeInstruction_offsets_int16 (e : Z) (i : Instruction.t) :
  Instruction.decodeInstruction e = Ok i ->
  - 2 ^ 15 <= Instruction.offDst i < 2 ^ 15 /\
  - 2 ^ 15 <= Instruction.offOp0 i < 2 ^ 15 /\
  - 2 ^ 15 <= Instruction.offOp1 i < 2 ^ 15.
Proof.
  intros H. apply decodeInstruction_Ok in H.
  destruct H as (_ & -> & -> & -> & _).
  pose proof (field_bound e 0 16 ltac:(lia)).
  pose proof (field_bound e 16 16 ltac:(lia)).
  pose proof (field_bound e 32 16 ltac:(lia)).
  lia.
Qed.

Lemma decodeInstruction_offsets_int16_witness :
  - 2 ^ 15 <= Instruction.offDst (Run.assertEq ResLogic.Op1) < 2 ^ 15 /\
  - 2 ^ 15 <= Instruction.offOp0 (Run.assertEq ResLogic.Op1) < 2 ^ 15 /\
  - 2 ^ 15 <= Instruction.offOp1 (Run.assertEq ResLogic.Op1) < 2 ^ 15.
Proof.
  exact (decodeInstruction_offsets_int16 Run.encoded
           (Run.assertEq ResLogic.Op1) eq_refl).
Defined.

(** ** The virtual machine *)

Section VirtualMachineMore.

Context {Relocatable MaybeRelocatable Mem : Type}.
Context {words : Words Relocatable MaybeRelocatable}.
Context {memory : MemoryOps Mem Relocatable MaybeRelocatable}.

Ltac invert_vm H :=
  let a := fresh "a" in
  let m := fresh "m" in
  let Hc := fresh "Hc" in
  apply bindVM_Ok in H; destruct H as (a & m & Hc & H).

(** When the word at [pc] is a field element that fits in 64 bits, [step]
    throws [NotImplemented] whatever the decoder returns for it: a decoding
    error is never reported. *)
Theorem step_ignores_decoding (vm : VirtualMachine) (w : MaybeRelocatable)
    (f : Felt.t) (u : Z) :
  memory_get (segments vm) (RunContext.getPc (runContext vm)) = Some w ->
  instanceofFelt w = Some f ->
  Felt.toUint64 f = Ok u ->
  step vm = Throw NotImplemented.
Proof. unfold step. intros -> -> ->. reflexivity. Qed.

(** The op0 and op1 of the operands returned by a successful resolution are
    what the memory held at their addresses before the resolution: a
    deduced op0 or op1 is not among the returned operands. *)
Theorem computeOperands_operands_as_read (rc : RunContext.t Relocatable)
    (instruction : Instruction.t) (m m' : Mem)
    (operands : Operands.t MaybeRelocatable) :
  computeOperands rc instruction m = (Ok operands, m') ->
  exists op0Addr op1Addr,
    computeAddress rc (Instruction.op0Reg instruction)
      (Instruction.offOp0 instruction) = Ok op0Addr /\
    computeOp1Address rc (Instruction.op1Src instruction)
      (Instruction.offOp1 instruction) (memory_get m op0Addr) = Ok op1Addr /\
    Operands.op0 operands = memory_get m op0Addr /\
    Operands.op1 operands = memory_get m op1Addr.
Proof.
  intros H. unfold computeOperands in H.
  invert_vm H. apply lift_Ok in Hc as [_ ->].
  invert_vm H. apply get_Ok in Hc as [-> ->].
  invert_vm H. apply lift_Ok in Hc as [Hop0 ->]. rename a0 into op0Addr.
  invert_vm H. apply get_Ok in Hc as [-> ->].
  invert_vm H. apply lift_Ok in Hc as [Hop1 ->]. rename a0 into op1Addr.
  invert_vm H. apply get_Ok in Hc as [-> ->].
  invert_vm H. clear Hc. invert_vm H. clear Hc.
  invert_vm H. clear Hc. invert_vm H. clear Hc.
  apply ret_Ok in H as [-> _].
  exists op0Addr, op1Addr. auto.
Qed.

(** Whatever its outcome, operand resolution changes the memory only by
    [insert]s at the addresses of dst, op0 and op1. *)
Theorem computeOperands_writes (rc : RunContext.t Relocatable)
    (instruction : Instruction.t) (m : Mem) :
  writes_to
    (fun a =>
       computeAddress rc (Instruction.dstReg instruction)
         (Instruction.offDst instruction) = Ok a \/
       computeAddress rc (Instruction.op0Reg instruction)
         (Instruction.offOp0 instruction) = Ok a \/
       exists op0Addr,
         computeAddress rc (Instruction.op0Reg instruction)
           (Instruction.offOp0 instruction) = Ok op0Addr /\
         computeOp1Address rc (Instruction.op1Src instruction)
           (Instruction.offOp1 instruction) (memory_get m op0Addr) = Ok a)
    m (snd (computeOperands rc instruction m)).
Proof.
  unfold computeOperands.
  cbv [mbind VM_bind bindVM lift get ret insertIfDefined insert].
  repeat (case_match; simplify_eq; cbn [snd fst]);
    repeat first [ apply writes_none
                 | apply writes_insert;
                   [|first [ left; reflexivity
                           | right; left; reflexivity
                           | right; right; eexists;
                             split; [reflexivity|congruence] ]] ].
Qed.

(** Resolution followed by the opcode assertion: on a Call whose op0 cell
    is empty, every successful resolution is rejected by the assertion with
    [InvalidOperand0]. *)
Theorem call_with_deduced_op0_rejected {identity : Identity MaybeRelocatable}
    (rc : RunContext.t Relocatable) (instruction : Instruction.t) (m m' : Mem)
    (operands : Operands.t MaybeRelocatable) :
  Instruction.opcode instruction = Opcode.Call ->
  (forall op0Addr,
     computeAddress rc (Instruction.op0Reg instruction)
       (Instruction.offOp0 instruction) = Ok op0Addr ->
     memory_get m op0Addr = None) ->
  computeOperands rc instruction m = (Ok operands, m') ->
  opcodeAssertion rc instruction operands = Err InvalidOperand0.
Proof.
  intros Hcall Hempty H. unfold computeOperands in H.
  invert_vm H. apply lift_Ok in Hc as [_ ->].
  invert_vm H. apply get_Ok in Hc as [-> ->].
  invert_vm H. apply lift_Ok in Hc as [Hop0 ->]. rename a0 into op0Addr.
  invert_vm H. apply get_Ok in Hc as [-> ->].
  invert_vm H. apply lift_Ok in Hc as [_ ->].
  invert_vm H. apply get_Ok in Hc as [-> ->].
  rewrite (Hempty op0Addr Hop0) in *.
  invert_vm H. invert_vm Hc. apply lift_Ok in Hc0 as [Hded _]. clear Hc.
  invert_vm H. clear Hc. invert_vm H. clear Hc. invert_vm H. clear Hc.
  apply ret_Ok in H as [-> _].
  unfold deduceOp0 in Hded. rewrite Hcall in Hded.
  unfold opcodeAssertion. rewrite Hcall. cbn [Operands.op0].
  destruct (Relocatable_add _ _); [reflexivity|discriminate..].
Qed.

(** Resolution followed by the opcode assertion: on an AssertEq whose dst
    cell is empty, a successful resolution returns res itself as dst, and
    the assertion accepts it exactly when res is defined. *)
Theorem assertEq_with_deduced_dst_accepted
    {identity : Identity MaybeRelocatable}
    (rc : RunContext.t Relocatable) (instruction : Instruction.t) (m m' : Mem)
    (operands : Operands.t MaybeRelocatable) :
  (forall x : MaybeRelocatable, same_object x x = true) ->
  Instruction.opcode instruction = Opcode.AssertEq ->
  (forall dstAddr,
     computeAddress rc (Instruction.dstReg instruction)
       (Instruction.offDst instruction) = Ok dstAddr ->
     memory_get m dstAddr = None) ->
  computeOperands rc instruction m = (Ok operands, m') ->
  Operands.dst operands = Operands.res operands /\
  opcodeAssertion rc instruction operands =
    match Operands.res operands with
    | Some _ => Ok tt
    | None => Err UnconstrainedResError
    end.
Proof.
  intros Hrefl Hop Hempty H. unfold computeOperands in H.
  invert_vm H. apply lift_Ok in Hc as [Hdst ->]. rename a into dstAddr.
  invert_vm H. apply get_Ok in Hc as [-> ->].
  invert_vm H. apply lift_Ok in Hc as [_ ->].
  invert_vm H. apply get_Ok in Hc as [-> ->].
  invert_vm H. apply lift_Ok in Hc as [_ ->].
  invert_vm H. apply get_Ok in Hc as [-> ->].
  rewrite (Hempty dstAddr Hdst) in *.
  invert_vm H. clear Hc. invert_vm H. clear Hc. invert_vm H. clear Hc.
  invert_vm H. invert_vm Hc. apply lift_Ok in Hc0 as [Hded _].
  invert_vm Hc. clear Hc0. apply ret_Ok in Hc as [-> _].
  apply ret_Ok in H as [-> _].
  unfold deduceDst in Hded. rewrite Hop in Hded. injection Hded as <-.
  cbn [Operands.dst Operands.res]. split; [reflexivity|].
  unfold opcodeAssertion, strict_eq. rewrite Hop.
  cbn [Operands.dst Operands.res].
  destruct a3 as [r|]; [|reflexivity]. rewrite Hrefl. reflexivity.
Qed.

(** For AssertEq with a res_logic other than Op1, [deduceOp1] and
    [deduceOp0] are the same function of dst and the known operand. *)
Theorem deduceOp1_agrees_with_deduceOp0 (rc : RunContext.t Relocatable)
    (instruction : Instruction.t) (dst x : option MaybeRelocatable) :
  Instruction.opcode instruction = Opcode.AssertEq ->
  Instruction.resLogic instruction <> ResLogic.Op1 ->
  deduceOp1 instruction dst x = deduceOp0 rc instruction dst x.
Proof.
  intros Hop Hrl. unfold deduceOp1, deduceOp0. rewrite Hop.
  destruct (Instruction.resLogic instruction); try congruence;
    destruct dst, x; reflexivity.
Qed.

(** A res deduced by [deduceOp0] or [deduceOp1] is dst itself and only
    arises for AssertEq; whenever an operand is deduced for AssertEq, res is
    dst and dst is defined; nothing is deduced for NoOp and Ret. *)
Theorem deduced_res_is_dst (rc : RunContext.t Relocatable)
    (instruction : Instruction.t) (dst x v r : option MaybeRelocatable) :
  deduceOp0 rc instruction dst x = Ok (v, r) \/
  deduceOp1 instruction dst x = Ok (v, r) ->
  (r = None \/ (r = dst /\ Instruction.opcode instruction = Opcode.AssertEq)) /\
  (Instruction.opcode instruction = Opcode.AssertEq -> is_Some v ->
   r = dst /\ is_Some dst) /\
  (Instruction.opcode instruction = Opcode.NoOp \/
   Instruction.opcode instruction = Opcode.Ret -> v = None /\ r = None).
Proof.
  unfold deduceOp0, deduceOp1.
  intros [H|H];
    destruct (Instruction.opcode instruction),
      (Instruction.resLogic instruction), dst, x;
    repeat match type of H with
           | context [bind ?c _] => destruct c; cbn [bind] in H
           | context [match ?c with _ => _ end] => destruct c
           end;
    try discriminate H; injection H as <- <-;
    (split; [|split]);
    try solve [ auto | intros; discriminate
              | intros _ [? [=]] | intros [[=]|[=]]
              | intros _ _; split; [reflexivity|eexists; reflexivity]
              | right; auto ].
Qed.

End VirtualMachineMore.

(** [computeDstAddress] converts the absolute value of the offset and moves
    the register chosen by dst_reg down by it when the offset is negative
    and up otherwise; an error of the conversion is returned as it is. *)
Theorem computeDstAddress_signed_offset {Relocatable : Type}
    (toUint32' : Z -> Result Z)
    (add sub : Relocatable -> Z -> Result Relocatable)
    (rc : RunContext.t Relocatable) (instruction : Instruction.t) :
  computeDstAddress toUint32' add sub rc instruction =
  bind (toUint32' (Z.abs (Instruction.offDst instruction)))
    (fun n =>
       (if Instruction.offDst instruction <? 0 then sub else add)
         (match Instruction.dstReg instruction with
          | RegisterFlag.AP => RunContext.ap rc
          | RegisterFlag.FP => RunContext.fp rc
          end) n).
Proof.
  unfold computeDstAddress. cbv zeta.
  destruct (Z.ltb_spec (Instruction.offDst instruction) 0) as [Hn|Hn].
  - replace (-1 * 1 * Instruction.offDst instruction
             + (1 - 1) * Instruction.offDst instruction)
      with (Z.abs (Instruction.offDst instruction)) by lia.
    destruct (toUint32' _); [cbn|reflexivity..].
    destruct (Instruction.dstReg instruction); reflexivity.
  - replace (-1 * 0 * Instruction.offDst instruction
             + (1 - 0) * Instruction.offDst instruction)
      with (Z.abs (Instruction.offDst instruction)) by lia.
    destruct (toUint32' _); [cbn|reflexivity..].
    destruct (Instruction.dstReg instruction); reflexivity.
Qed.

Lemma step_ignores_decoding_witness :
  Instruction.decodeInstruction (2 ^ 63) = Err HighBitSetError /\
  step RunObjects.highBit = Throw NotImplemented.
Proof.
  split; [reflexivity|].
  apply (step_ignores_decoding RunObjects.highBit (Run.felt (2 ^ 63))
           (Felt.mk (2 ^ 63)) (2 ^ 63)); reflexivity.
Defined.

Lemma computeOperands_operands_as_read_witness :
  exists op0Addr op1Addr,
    computeAddress (Run.registers (0, 0) (1, 0) (1, 0))
      (Instruction.op0Reg Run.call) (Instruction.offOp0 Run.call) =
      Ok op0Addr /\
    computeOp1Address (Run.registers (0, 0) (1, 0) (1, 0))
      (Instruction.op1Src Run.call) (Instruction.offOp1 Run.call)
      (memory_get (SegmentedMemory.store Run.blank (0, 1) (Run.felt 5))
         op0Addr) = Ok op1Addr /\
    None = memory_get (SegmentedMemory.store Run.blank (0, 1) (Run.felt 5))
             op0Addr /\
    Some (Run.felt 5) =
      memory_get (SegmentedMemory.store Run.blank (0, 1) (Run.felt 5)) op1Addr.
Proof.
  exact (computeOperands_operands_as_read (Run.registers (0, 0) (1, 0) (1, 0))
           Run.call (SegmentedMemory.store Run.blank (0, 1) (Run.felt 5))
           (SegmentedMemory.store
              (SegmentedMemory.store Run.blank (0, 1) (Run.felt 5))
              (1, 0) (Word.Ptr (0, 2)))
           (Operands.mk None (Some (Run.felt 5)) (Some (Run.felt 5))
              (Some (Word.Ptr (1, 0))))
           eq_refl).
Defined.

Lemma call_with_deduced_op0_rejected_witness :
  ObjectMemory.get
    (snd (computeOperands (words := Heap_Words 20) Run.objects Run.call
            RunObjects.callCells))
    (Heap.mkObj 20 (Word.Ptr (1, 0))) =
    Some (Heap.mkObj 20 (Word.Ptr (0, 2))) /\
  opcodeAssertion (words := Heap_Words 20) Run.objects Run.call
    (Operands.mk None (Some (Heap.mkObj 5 (Run.felt 5)))
       (Some (Heap.mkObj 5 (Run.felt 5)))
       (Some (RunContext.getFp Run.objects))) = Err InvalidOperand0.
Proof.
  split; [reflexivity|].
  apply (call_with_deduced_op0_rejected (words := Heap_Words 20) Run.objects
           Run.call RunObjects.callCells
           (snd (computeOperands (words := Heap_Words 20) Run.objects Run.call
                   RunObjects.callCells))).
  - reflexivity.
  - intros a Ha. vm_compute in Ha. injection Ha as <-. reflexivity.
  - reflexivity.
Defined.

Lemma assertEq_with_deduced_dst_accepted_witness :
  Some Run.seven = Some Run.seven /\
  opcodeAssertion (words := Heap_Words 20) RunObjects.registers
    (Run.assertEq ResLogic.Op1)
    (Operands.mk None (Some Run.seven) (Some Run.seven) (Some Run.seven)) =
    Ok tt.
Proof.
  apply (assertEq_with_deduced_dst_accepted (words := Heap_Words 20)
           RunObjects.registers (Run.assertEq ResLogic.Op1) RunObjects.cells
           (snd (computeOperands (words := Heap_Words 20) RunObjects.registers
                   (Run.assertEq ResLogic.Op1) RunObjects.cells))
           (Operands.mk None (Some Run.seven) (Some Run.seven)
              (Some Run.seven))).
  - intros x. apply Pos.eqb_refl.
  - reflexivity.
  - intros a Ha. vm_compute in Ha. injection Ha as <-. reflexivity.
  - reflexivity.
Defined.

Lemma deduceOp1_agrees_with_deduceOp0_witness :
  deduceOp1 (Run.assertEq ResLogic.Add) (Some (Run.felt 7))
    (Some (Run.felt 3)) =
  deduceOp0 (Run.registers (0, 0) (1, 0) (1, 0)) (Run.assertEq ResLogic.Add)
    (Some (Run.felt 7)) (Some (Run.felt 3)).
Proof.
  apply (deduceOp1_agrees_with_deduceOp0 (Run.registers (0, 0) (1, 0) (1, 0))
           (Run.assertEq ResLogic.Add)); [reflexivity|discriminate].
Defined.

Lemma deduced_res_is_dst_witness :
  (Some (Run.felt 7) = None \/
   (Some (Run.felt 7) = Some (Run.felt 7) /\
    Instruction.opcode (Run.assertEq ResLogic.Add) = Opcode.AssertEq)) /\
  (Instruction.opcode (Run.assertEq ResLogic.Add) = Opcode.AssertEq ->
   is_Some (Some (Run.felt 4)) ->
   Some (Run.felt 7) = Some (Run.felt 7) /\ is_Some (Some (Run.felt 7))) /\
  (Instruction.opcode (Run.assertEq ResLogic.Add) = Opcode.NoOp \/
   Instruction.opcode (Run.assertEq ResLogic.Add) = Opcode.Ret ->
   Some (Run.felt 4) = None /\ Some (Run.felt 7) = None).
Proof.
  apply (deduced_res_is_dst (Run.registers (0, 0) (1, 0) (1, 0))
           (Run.assertEq ResLogic.Add) (Some (Run.felt 7)) (Some (Run.felt 3))).
  left. reflexivity.
Defined.
